(** * Visual Snow Syndrome MEG analysis scripts: verified properties

    Two scripts carry the logic studied here:

    - [Neuroplasticity_VSS/scripts/analysis/process_reaction_times.py]
      ([classify_responses]), embedded in [Module ReactionTimes];
    - [Contrat_Gain_VSS/scripts/analysis/5_model_fitting.py]
      (the Naka-Rushton contrast response fit), embedded in
      [Module ModelFitting].
*)

From Stdlib Require Import List String Ascii ZArith Bool Lia.
From Stdlib Require Import Reals Lra Sorted.
Import ListNotations.

(* ====================================================================== *)
(** * Reaction-time classification *)
(* ====================================================================== *)

Module ReactionTimes.

Local Open Scope string_scope.
Local Open Scope Z_scope.

(** [RESPONSE_WINDOW = 1700]: time window for valid responses. *)
Definition RESPONSE_WINDOW : Z := 1700.

(** One row of the log: [(log_data[0][i], log_data[1][i])], the "Code"
    and the "Time" column of the log file.  [log_data] is the transposed
    two-column frame, so both inner lists have one cell per row. *)
Definition entry : Type := string * Z.

(** A time difference is a number or [np.nan], written [None]. *)
Definition time_diff_t : Type := option Z.

(** The two lists built by [classify_responses]. *)
Definition outputs : Type := (list Z * list time_diff_t)%type.

(** [label.startswith('gr_')] *)
Definition is_grating (label : string) : bool := String.prefix "gr_" label.

(** [log_data[0][i] not in ['fix', 'anim']], negated. *)
Definition ends_block (label : string) : bool :=
  String.eqb label "fix" || String.eqb label "anim".

(** The times collected while a stimulus block is parsed:
    [disappear_time], [response_time], [late_time] ([None] as in Python). *)
Record block_times : Type := mkTimes {
  disappear_time : option Z;
  response_time : option Z;
  late_time : option Z
}.

Definition no_times : block_times := mkTimes None None None.

(** Body of the inner [while]: the [if / elif / elif] on [current_label]. *)
Definition record_event (bt : block_times) (current_label : string) (t : Z)
  : block_times :=
  if String.eqb current_label "disappear" then
    mkTimes (Some t) (response_time bt) (late_time bt)
  else if String.eqb current_label "16" then
    mkTimes (disappear_time bt) (Some t) (late_time bt)
  else if String.eqb current_label "late" then
    mkTimes (disappear_time bt) (response_time bt) (Some t)
  else bt.

(** The "Classify response" part: response class and time difference. *)
Definition classify_trial (bt : block_times) : Z * time_diff_t :=
  match disappear_time bt with
  | Some dt =>
      match response_time bt with
      | Some rt =>
          let time_diff := rt - dt in
          if rt <? dt then (0, Some time_diff)
          else if (dt <=? rt) && (rt <=? dt + RESPONSE_WINDOW)
               then (0, Some time_diff)
          else if match late_time bt with
                  | Some lt => lt <? rt
                  | None => false
                  end
               then (2, Some time_diff)
          else if (dt + RESPONSE_WINDOW <? rt)
                  && match late_time bt with None => true | Some _ => false end
                  && (time_diff <? 10000)
               then (1, Some time_diff)
          else (2, Some time_diff)
      | None =>
          match late_time bt with
          | Some _ => (2, None)
          | None => (2, None)
          end
      end
  | None => (3, None)
  end.

(** [response_types.append(response_class); time_differences.append(time_diff)] *)
Definition append_trial (bt : block_times) (out : outputs) : outputs :=
  let '(response_class, time_diff) := classify_trial bt in
  (response_class :: fst out, time_diff :: snd out).

(** The inner [while]: scan from the grating label up to the next
    ['fix'] / ['anim'] (or the end of the log), then classify; [resume]
    is the rest of the outer loop. *)
Definition parse_block (resume : list entry -> outputs)
  : list entry -> block_times -> outputs :=
  fix scan (log : list entry) (bt : block_times) : outputs :=
    match log with
    | [] => append_trial bt ([], [])
    | (current_label, t) :: rest =>
        if ends_block current_label
        then append_trial bt (resume rest)
        else scan rest (record_event bt current_label t)
    end.

(** The outer [while].  When the inner loop stops at a ['fix'] / ['anim']
    row the outer loop looks at that row again, finds it is no grating
    label and steps over it; [parse_block] resumes directly behind it
    (see [classify_loop_skips_block_end]). *)
Fixpoint classify_loop (log : list entry) : outputs :=
  match log with
  | [] => ([], [])
  | (label, _) :: rest =>
      if is_grating label
      then parse_block classify_loop log no_times
      else classify_loop rest
  end.

Definition classify_responses (log_data : list entry) : outputs :=
  classify_loop log_data.

(** ** Trials as segments of the log

    The rows the inner loop walks over for one stimulus block: from a
    grating label up to, and without, the next ['fix'] / ['anim'] row. *)
Definition take_block (resume : list entry -> list (list entry))
  : list entry -> list entry -> list (list entry) :=
  fix take (log : list entry) (seen : list entry) : list (list entry) :=
    match log with
    | [] => [rev seen]
    | (current_label, t) :: rest =>
        if ends_block current_label
        then rev seen :: resume rest
        else take rest ((current_label, t) :: seen)
    end.

Fixpoint trial_rows (log : list entry) : list (list entry) :=
  match log with
  | [] => []
  | (label, _) :: rest =>
      if is_grating label
      then take_block trial_rows log []
      else trial_rows rest
  end.

(** The three times after the inner loop has walked over [rows]. *)
Definition collect_from (bt : block_times) (rows : list entry) : block_times :=
  fold_left (fun acc (row : entry) => record_event acc (fst row) (snd row))
            rows bt.

Definition collect (rows : list entry) : block_times :=
  collect_from no_times rows.

(** Number of grating events of a log. *)
Definition count_gratings (log : list entry) : nat :=
  List.length (filter (fun row : entry => is_grating (fst row)) log).

(** A row with the given code occurs among [rows]. *)
Definition has_event (code : string) (rows : list entry) : bool :=
  existsb (fun row : entry => String.eqb (fst row) code) rows.

(** The rows of one trial: a grating row first, no ['fix'] / ['anim']
    row among them. *)
Definition is_trial (rows : list entry) : Prop :=
  match rows with
  | [] => False
  | (label, _) :: _ => is_grating label = true
  end
  /\ Forall (fun row : entry => ends_block (fst row) = false) rows.

(** The two output lists that classifying every trial of [trials] gives. *)
Definition outputs_of_trials (trials : list (list entry)) : outputs :=
  (map (fun rows => fst (classify_trial (collect rows))) trials,
   map (fun rows => snd (classify_trial (collect rows))) trials).

(** Every grating event is followed by a ['fix'] / ['anim'] row before
    the next grating event; [inside] tells whether a block is open. *)
Fixpoint separated (inside : bool) (log : list entry) : bool :=
  match log with
  | [] => true
  | (label, _) :: rest =>
      if ends_block label then separated false rest
      else if is_grating label then negb inside && separated true rest
      else separated inside rest
  end.

(** Two grating labels with no ['fix'] / ['anim'] row between them. *)
Definition back_to_back_log : list entry := [("gr_0", 100); ("gr_1", 200)].

(** An early response ([160] before [200]) and an on-time response. *)
Definition early_log : list entry :=
  [("fix", 0); ("gr_2", 100); ("16", 160); ("disappear", 200); ("anim", 300)].
Definition on_time_log : list entry :=
  [("fix", 0); ("gr_2", 100); ("disappear", 200); ("16", 260); ("anim", 300)].

End ReactionTimes.

(* ====================================================================== *)
(** * Contrast response function fitting *)
(* ====================================================================== *)

Module ModelFitting.

Local Open Scope string_scope.
Local Open Scope R_scope.

(** ** Numbers

    A finite float64 is modelled by the real number it stands for, and
    the operations below are exact: they say which expression the script
    evaluates, with rounding, underflow and overflow left out.  [None]
    stands for a result that is no finite number ([inf] or [nan]); once
    an operand is [None] the result is [None].  Where a property depends
    on rounding or underflow, the same expressions are evaluated in
    binary64 arithmetic further down. *)
Definition float : Type := option R.

Definition fin (x : R) : float := Some x.

Definition lift2 (op : R -> R -> R) (a b : float) : float :=
  match a, b with
  | Some x, Some y => Some (op x y)
  | _, _ => None
  end.

Definition fadd : float -> float -> float := lift2 Rplus.
Definition fsub : float -> float -> float := lift2 Rminus.
Definition fmul : float -> float -> float := lift2 Rmult.

(** Division by zero gives [inf] or [nan] (numpy warns, it does not raise). *)
Definition fdiv (a b : float) : float :=
  match a, b with
  | Some x, Some y => if Req_dec_T y 0 then None else Some (x / y)
  | _, _ => None
  end.

(** [x ** y] on floats: [exp (y * ln x)] for a positive base; [0 ** y] is
    [0], [1] or [inf] as [y] is positive, zero or negative; a negative
    base has a power for an integral exponent only, else [nan]. *)
Definition float_pow (x y : R) : float :=
  if Rlt_dec 0 x then Some (Rpower x y)
  else if Req_dec_T x 0 then
    if Rlt_dec 0 y then Some 0
    else if Req_dec_T y 0 then Some 1
    else None
  else if Req_dec_T (frac_part y) 0 then Some (powerRZ x (Int_part y))
  else None.

Definition fpow (a b : float) : float :=
  match a, b with
  | Some x, Some y => float_pow x y
  | _, _ => None
  end.

Declare Scope float_scope.
Delimit Scope float_scope with float.
Notation "a + b" := (fadd a b) : float_scope.
Notation "a - b" := (fsub a b) : float_scope.
Notation "a * b" := (fmul a b) : float_scope.
Notation "a / b" := (fdiv a b) : float_scope.
Notation "a ** b" := (fpow a b) (at level 30, right associativity) : float_scope.

(** ** Exceptions *)

(** A Python exception, by the name of its class. *)
Definition exception : Type := string.

Inductive outcome (A : Type) : Type :=
| Returns (a : A)
| Raises (e : exception).
Arguments Returns {A} a.
Arguments Raises {A} e.

Definition bind {A B : Type} (c : outcome A) (k : A -> outcome B) : outcome B :=
  match c with
  | Returns a => k a
  | Raises e => Raises e
  end.

Notation "x <- c ;; k" := (bind c (fun x => k))
  (at level 61, c at next level, right associativity).

(** ** Configuration parameters *)

(** [CONTRASTS = np.array([0.05, 0.1, 0.2, 0.4, 0.8])] *)
Definition CONTRASTS : list R := [5 / 100; 1 / 10; 2 / 10; 4 / 10; 8 / 10].

(** [FINE_CONTRAST = np.linspace(0.05, 0.8, 100)] *)
Definition FINE_CONTRAST : list R :=
  map (fun i : nat => 5 / 100 + INR i * ((8 / 10 - 5 / 100) / 99)) (seq 0 100).

(** [INITIAL_PARAMS]; the two [None] entries are filled from the data. *)
Definition INITIAL_PARAMS_semisaturation : R := 3 / 10.
Definition INITIAL_PARAMS_Saturation : R := 1.

(** [PARAM_CONSTRAINTS]: [(min, max)], [None] for "no bound". *)
Definition PARAM_CONSTRAINTS_semisaturation : option R * option R :=
  (Some 0, Some 50).
Definition PARAM_CONSTRAINTS_Saturation : option R * option R :=
  (Some 0, Some 5).
Definition PARAM_CONSTRAINTS_baseline : option R * option R :=
  (Some 0, None).

Definition BASE_DIR : string := "{path_to_subjects_folders}/{subjects_folder}/".
Definition INPUT_FILES : list string := ["Appelbaum_Nmax_1"].
Definition SUBJECTS_VS : list string := ["Subject_1"].
Definition SUBJECTS_CONTR : list string := [].

(** ** Parameters *)

(** One [lmfit] parameter as [params.add(name, value=, min=, max=, vary=)]
    sets it up; a missing [min] or [max] is [None] (unbounded). *)
Record lmfit_Parameter : Type := mkParameter {
  value : R;
  min : option R;
  max : option R;
  vary : bool
}.

(** The [lmfit.Parameters] of this model: its four named entries. *)
Record lmfit_Parameters : Type := mkParameters {
  semisaturation : lmfit_Parameter;
  MAXampl : lmfit_Parameter;
  Saturation : lmfit_Parameter;
  baseline : lmfit_Parameter
}.

(** ** Model functions *)

(** [naka_rushton(params, contrast)] at one contrast value. *)
Definition naka_rushton (params : lmfit_Parameters) (contrast : R) : float :=
  let semisat := fin (value (semisaturation params)) in
  let Rmax := fin (value (MAXampl params)) in
  let s := fin (value (Saturation params)) in
  let b := fin (value (baseline params)) in
  let contrast := fin contrast in
  (Rmax * contrast ** fin 2
     / (semisat ** (fin 2 * s) + contrast ** (fin 2 * s)) + b)%float.

(** The same on an array of contrast values (numpy works elementwise). *)
Definition naka_rushton_array (params : lmfit_Parameters) (contrast : list R)
  : list float :=
  map (naka_rushton params) contrast.

(** [a - b] on one-dimensional numpy arrays: elementwise, an array of
    length 1 is stretched, other length mismatches raise. *)
Definition np_sub (a b : list float) : outcome (list float) :=
  if Nat.eqb (List.length a) (List.length b) then
    Returns (map (fun ab : float * float => fsub (fst ab) (snd ab)) (combine a b))
  else
    match a, b with
    | [x], _ => Returns (map (fun y => fsub x y) b)
    | _, [y] => Returns (map (fun x => fsub x y) a)
    | _, _ => Raises "ValueError"
    end.

(** [residual(params, contrast, data)] *)
Definition residual (params : lmfit_Parameters) (contrast data : list R)
  : outcome (list float) :=
  np_sub (map fin data) (naka_rushton_array params contrast).

(** ** Processing functions *)

(** One row of the input table: the columns [load_subject_data] reads. *)
Record csv_row : Type := mkRow {
  subj : string;
  C5 : R; C10 : R; C20 : R; C40 : R; C80 : R;
  Base : R
}.

(** What [minimize] hands back: [result.params] and [result.residual]. *)
Record MinimizerResult : Type := mkResult {
  result_params : lmfit_Parameters;
  result_residual : list R
}.

(** The table written by the batch run: column names and one row per
    fitted subject. *)
Record results_table : Type := mkTable {
  columns : list string;
  rows : list (string * list float)
}.

(** [np.max(data)]; an empty array raises. *)
Definition np_max (data : list R) : outcome R :=
  match data with
  | [] => Raises "ValueError"
  | x :: xs => Returns (fold_left Rmax xs x)
  end.

(** [array.sum()] and the built-in [sum] over an array. *)
Definition sum (xs : list R) : R := fold_right Rplus 0 xs.

(** [mean(data)]; its value on an empty array is never used below. *)
Definition mean (xs : list R) : R := sum xs / INR (List.length xs).

(** What [lmfit] does with a value outside its bounds when a parameter
    is set up ([Parameter._init_bounds]): a value above [max] becomes
    [max], a value below [min] becomes [min]. *)
Definition clip (p : lmfit_Parameter) : lmfit_Parameter :=
  let below := match max p with Some hi => Rmin (value p) hi | None => value p end in
  let inside := match min p with Some lo => Rmax below lo | None => below end in
  mkParameter inside (min p) (max p) (vary p).

Definition clip_parameters (params : lmfit_Parameters) : lmfit_Parameters :=
  mkParameters (clip (semisaturation params)) (clip (MAXampl params))
               (clip (Saturation params)) (clip (baseline params)).

(** [params.add(name, value=, min=, max=)]: the parameter varies and its
    start value is moved into the bounds. *)
Definition params_add (value : R) (min max : option R) : lmfit_Parameter :=
  clip (mkParameter value min max true).

(** [initialize_parameters(data, baseline)] *)
Definition initialize_parameters (data : list R) (baseline : R)
  : outcome lmfit_Parameters :=
  data_max <- np_max data ;;
  Returns
    {| semisaturation :=
         params_add INITIAL_PARAMS_semisaturation
                    (fst PARAM_CONSTRAINTS_semisaturation)
                    (snd PARAM_CONSTRAINTS_semisaturation);
       MAXampl := params_add data_max (Some 0) None;
       Saturation :=
         params_add INITIAL_PARAMS_Saturation
                    (fst PARAM_CONSTRAINTS_Saturation)
                    (snd PARAM_CONSTRAINTS_Saturation);
       baseline :=
         params_add baseline (fst PARAM_CONSTRAINTS_baseline) None |}.

(** [(result.residual**2).sum()] *)
Definition rss_of (residuals : list R) : R :=
  sum (map (fun r => r ^ 2) residuals).

(** [sum(np.power(data - mean(data), 2))] *)
Definition tss_of (data : list R) : R :=
  sum (map (fun d => (d - mean data) ^ 2) data).

(** "Calculate goodness of fit": [(rss, tss, rsq)]. *)
Definition goodness_of_fit (data residuals : list R) : R * R * float :=
  let rss := rss_of residuals in
  let tss := tss_of data in
  let rsq := (fin 1 - fin rss / fin tss)%float in
  (rss, tss, rsq).

Definition rsq_of (data residuals : list R) : float :=
  snd (goodness_of_fit data residuals).

(** The objective function handed to the optimizer. *)
Definition objective : Type :=
  lmfit_Parameters -> list R -> list R -> outcome (list float).

(** All entries of an array are finite. *)
Fixpoint all_finite (xs : list float) : option (list R) :=
  match xs with
  | [] => Some []
  | Some x :: rest =>
      match all_finite rest with
      | Some ys => Some (x :: ys)
      | None => None
      end
  | None :: _ => None
  end.

Section Pipeline.

(** The collaborators outside the repository: the least-squares routine
    [lmfit.minimize], the table reader [pd.read_csv], the report
    (figure, [add_figure], both [report.save] calls) and the table
    writer [to_csv]. *)
Variable minimize :
  objective -> lmfit_Parameters -> list R -> list R -> outcome MinimizerResult.
Variable read_csv : string -> outcome (list csv_row).
Variable render_report :
  string -> string -> string ->
  list R -> list R -> list float -> list float -> list R ->
  lmfit_Parameters -> float -> outcome unit.
Variable to_csv : string -> results_table -> outcome unit.

(** [load_subject_data(csv_path, group, subject, data_file)] *)
Definition load_subject_data (csv_path group subject data_file : string)
  : outcome (list R * R) :=
  df <- read_csv (csv_path ++ data_file ++ "_" ++ group ++ ".csv") ;;
  match filter (fun row => String.eqb (subj row) subject) df with
  | [] => Raises "IndexError"
  | subject_data :: _ =>
      let scale := 10 ^ 12 in
      Returns ([C5 subject_data * scale; C10 subject_data * scale;
                C20 subject_data * scale; C40 subject_data * scale;
                C80 subject_data * scale],
               Base subject_data * scale)
  end.

(** The fit itself: the [try] body of [process_subject] behind the
    loading step, with the contrast levels as an argument
    ([process_subject] passes [CONTRASTS]); [base] is the local
    [baseline] of the script. *)
Definition fit (subject_path subject data_file : string)
           (contrast data : list R) (base : R) : outcome (list float) :=
  params <- initialize_parameters data base ;;
  result <- minimize residual params contrast data ;;
  final_fit <- np_sub (map fin data) (map fin (result_residual result)) ;;
  let fine_model := naka_rushton_array (result_params result) FINE_CONTRAST in
  let '(rss, tss, rsq) := goodness_of_fit data (result_residual result) in
  _ <- render_report subject_path subject data_file
         contrast data final_fit fine_model
         (result_residual result) (result_params result) rsq ;;
  Returns [fin (value (semisaturation (result_params result)));
           fin (value (MAXampl (result_params result)));
           fin (value (Saturation (result_params result)));
           fin (value (baseline (result_params result)));
           rsq].

(** [process_subject(group, subject, data_file)]: any exception is
    printed and turned into [None]. *)
Definition process_subject (group subject data_file : string)
  : option (string * list float) :=
  let subject_path := BASE_DIR ++ group ++ "/" ++ subject ++ "/" in
  match
    loaded <- load_subject_data BASE_DIR group subject data_file ;;
    fit subject_path subject data_file CONTRASTS (fst loaded) (snd loaded)
  with
  | Returns fit_results => Some (subject, fit_results)
  | Raises _ => None
  end.

(** The three nested [for] loops of the batch run: the rows of
    [subject_ids] and [all_results], kept side by side. *)
Definition run_all (subjects_vs subjects_contr input_files : list string)
  : list (string * list float) :=
  flat_map (fun gs : string * list string =>
    flat_map (fun subject =>
      flat_map (fun data_file =>
        match process_subject (fst gs) subject data_file with
        | Some result => [result]
        | None => []
        end) input_files) (snd gs))
    [("VS", subjects_vs); ("CONTR", subjects_contr)].

Definition output_file : string := BASE_DIR ++ "fit_results_all_smax2_Nmax1.csv".

Definition results_columns : list string :=
  ["subj"; "AbN1_semi"; "AbN1_Rmax"; "AbN1_s"; "AbN1_b"; "AbN1_R2"].

(** The [__main__] block: the files it writes, [(path, table)]. *)
Definition main (subjects_vs subjects_contr input_files : list string)
  : outcome (list (string * results_table)) :=
  let all_results := run_all subjects_vs subjects_contr input_files in
  match all_results with
  | [] => Returns []
  | _ :: _ =>
      let results_df := mkTable results_columns all_results in
      _ <- to_csv output_file results_df ;;
      Returns [(output_file, results_df)]
  end.

End Pipeline.

(** ** How [lmfit] keeps a parameter inside its bounds *)

(** [lmfit] lets the least-squares routine work on an unbounded internal
    variable for each parameter and maps it to the parameter value
    ([Parameter.from_internal], chosen by [setup_bounds]):
    [min - 1 + sqrt(x*x + 1)] with a lower bound only,
    [max + 1 - sqrt(x*x + 1)] with an upper bound only, and
    [min + (sin(x) + 1) * (max - min) / 2] with both. *)
Definition from_internal (p : lmfit_Parameter) (x : R) : R :=
  match min p, max p with
  | None, None => x
  | Some lo, None => lo - 1 + sqrt (x * x + 1)
  | None, Some hi => hi + 1 - sqrt (x * x + 1)
  | Some lo, Some hi => lo + (sin x + 1) * (hi - lo) / 2
  end.

(** [Parameter.setup_bounds]: the internal variable of the start value. *)
Definition setup_bounds (p : lmfit_Parameter) : R :=
  match min p, max p with
  | None, None => value p
  | Some lo, None => sqrt ((value p - lo + 1) ^ 2 - 1)
  | None, Some hi => sqrt ((hi - value p + 1) ^ 2 - 1)
  | Some lo, Some hi => asin (2 * (value p - lo) / (hi - lo) - 1)
  end.

(** The internal variables of the four parameters, in the order of the
    [params.add] calls. *)
Definition internal : Type := (R * R * R * R)%type.

Definition set_internal (p : lmfit_Parameter) (x : R) : lmfit_Parameter :=
  mkParameter (from_internal p x) (min p) (max p) (vary p).

(** The parameter values the objective function is called with, and the
    values reported at the end, for the internal variables [x]. *)
Definition with_internal (params : lmfit_Parameters) (x : internal)
  : lmfit_Parameters :=
  let '(x1, x2, x3, x4) := x in
  mkParameters (set_internal (semisaturation params) x1)
               (set_internal (MAXampl params) x2)
               (set_internal (Saturation params) x3)
               (set_internal (baseline params) x4).

Section Lmfit.

(** [scipy.optimize.leastsq], which [lmfit.minimize] calls by default:
    from a function of the internal variables and their start values to
    the internal variables it stops at. *)
Variable leastsq :
  (internal -> outcome (list float)) -> internal -> outcome internal.

(** [lmfit.minimize(fcn, params, args=(contrast, data))]: the search runs
    on the internal variables; [result.params] holds their images and
    [result.residual] the objective function there.  A residual that is
    not finite ends the fit with a [ValueError]. *)
Definition minimize_lmfit : objective -> lmfit_Parameters -> list R -> list R
                            -> outcome MinimizerResult :=
  fun fcn params contrast data =>
    let start := (setup_bounds (semisaturation params),
                  setup_bounds (MAXampl params),
                  setup_bounds (Saturation params),
                  setup_bounds (baseline params)) in
    best <- leastsq (fun x => fcn (with_internal params x) contrast data) start ;;
    let final := with_internal params best in
    r <- fcn final contrast data ;;
    match all_finite r with
    | Some res => Returns (mkResult final res)
    | None => Raises "ValueError"
    end.

End Lmfit.

(** ** Binary64 arithmetic *)

(** The expressions of the script as Python and numpy evaluate them:
    every operation returns its exact result rounded to binary64.
    [rnd x] is the binary64 number nearest to [x]; it is [0] when [x] is
    too small (underflow) and [None] when [x] is too large (overflow).
    [pw x y] is [x ** y] as the C library computes it.  Both are left
    open; the properties below name the laws of binary64 arithmetic they
    use.  [None] stands, as above, for a result that is no finite
    number. *)
Section Binary64.

Variable rnd : R -> float.
Variable pw : R -> R -> float.

(** [x] is a binary64 number: rounding leaves it as it is. *)
Definition representable (x : R) : Prop := rnd x = Some x.

Definition rounded (op : R -> R -> R) (a b : float) : float :=
  match a, b with
  | Some x, Some y => rnd (op x y)
  | _, _ => None
  end.

Definition radd : float -> float -> float := rounded Rplus.
Definition rsub : float -> float -> float := rounded Rminus.
Definition rmul : float -> float -> float := rounded Rmult.

Definition rdiv (a b : float) : float :=
  match a, b with
  | Some x, Some y => if Req_dec_T y 0 then None else rnd (x / y)
  | _, _ => None
  end.

Definition rpow (a b : float) : float :=
  match a, b with
  | Some x, Some y => pw x y
  | _, _ => None
  end.

(** [naka_rushton(params, contrast)] at one entry of the contrast array;
    numpy squares the entry for [contrast**2] and calls the power
    function for the other two powers. *)
Definition naka_rushton_binary64 (params : lmfit_Parameters) (contrast : R)
  : float :=
  let semisat := fin (value (semisaturation params)) in
  let Rmax := fin (value (MAXampl params)) in
  let s := fin (value (Saturation params)) in
  let b := fin (value (baseline params)) in
  let contrast := fin contrast in
  radd (rdiv (rmul Rmax (rmul contrast contrast))
             (radd (rpow semisat (rmul (fin 2) s))
                   (rpow contrast (rmul (fin 2) s))))
       b.

(** [array.sum()] and the built-in [sum]: the entries are added from
    left to right, starting from 0 (numpy adds arrays of eight and more
    entries in blocks; the script sums five). *)
Definition np_sum (xs : list float) : float := fold_left radd xs (fin 0).

(** [(result.residual**2).sum()] *)
Definition rss_binary64 (residuals : list R) : float :=
  np_sum (map (fun r => rmul (fin r) (fin r)) residuals).

(** [mean(data)] *)
Definition mean_binary64 (data : list R) : float :=
  rdiv (np_sum (map fin data)) (fin (INR (List.length data))).

(** [sum(np.power(data - mean(data), 2))] *)
Definition tss_binary64 (data : list R) : float :=
  let m := mean_binary64 data in
  np_sum (map (fun d => rpow (rsub (fin d) m) (fin 2)) data).

(** [rsq = 1 - rss / tss] *)
Definition rsq_binary64 (data residuals : list R) : float :=
  rsub (fin 1) (rdiv (rss_binary64 residuals) (tss_binary64 data)).

End Binary64.

(** ** Rounding errors *)

(** The relative rounding errors of one evaluation of the model
    expression, one for each of its operations: a binary64 operation
    that neither underflows nor overflows returns its exact result times
    [1 + d] with [|d| <= 2^-53], and the power function of the C library
    is accurate to one unit in the last place, [|d| <= 2^-52].  Doubling
    [s] is exact. *)
Record rounding_errors : Type := mkErrors {
  err_square : R;
  err_times : R;
  err_pow_semisat : R;
  err_pow_contrast : R;
  err_plus : R;
  err_divide : R;
  err_base : R
}.

Definition errors_within (eps : R) (e : rounding_errors) : Prop :=
  Rabs (err_square e) <= eps /\ Rabs (err_times e) <= eps
  /\ Rabs (err_pow_semisat e) <= eps /\ Rabs (err_pow_contrast e) <= eps
  /\ Rabs (err_plus e) <= eps /\ Rabs (err_divide e) <= eps
  /\ Rabs (err_base e) <= eps.

(** The value [naka_rushton] computes at a positive contrast when its
    operations commit the rounding errors [e]. *)
Definition naka_rushton_rounded (params : lmfit_Parameters) (contrast : R)
           (e : rounding_errors) : R :=
  let semisat := value (semisaturation params) in
  let Rmax := value (MAXampl params) in
  let s := value (Saturation params) in
  let b := value (baseline params) in
  let square := contrast * contrast * (1 + err_square e) in
  let numerator := Rmax * square * (1 + err_times e) in
  let A := Rpower semisat (2 * s) * (1 + err_pow_semisat e) in
  let B := Rpower contrast (2 * s) * (1 + err_pow_contrast e) in
  let denominator := (A + B) * (1 + err_plus e) in
  let quotient := numerator / denominator * (1 + err_divide e) in
  (quotient + b) * (1 + err_base e).

(** ** The contract of the specification, in its words *)

(** [InvalidInput]: the contrast levels and the responses differ in
    length, or some contrast is not positive, or there are fewer than 4
    samples. *)
Definition invalid_input (contrastLevels responses : list R) : Prop :=
  List.length contrastLevels <> List.length responses
  \/ Exists (fun c => c <= 0) contrastLevels
  \/ (List.length responses < 4)%nat.

(** The model function as the specification writes it, on real numbers:
    [maxAmplitude * contrast^2 /
     (semisaturation^(2*saturationExponent) + contrast^(2*saturationExponent))
     + baseline]. *)
Definition response (semisat maxAmplitude saturationExponent base contrast : R)
  : R :=
  maxAmplitude * contrast ^ 2
    / (Rpower semisat (2 * saturationExponent)
       + Rpower contrast (2 * saturationExponent))
  + base.

(** A parameter value lies within its configured bounds. *)
Definition within (p : lmfit_Parameter) : Prop :=
  match min p with Some lo => lo <= value p | None => True end
  /\ match max p with Some hi => value p <= hi | None => True end.

Definition within_bounds (params : lmfit_Parameters) : Prop :=
  within (semisaturation params) /\ within (MAXampl params)
  /\ within (Saturation params) /\ within (baseline params).

(** The bounds [initialize_parameters] configures. *)
Definition configured_bounds (params : lmfit_Parameters) : Prop :=
  (min (semisaturation params), max (semisaturation params)) = (Some 0, Some 50)
  /\ (min (MAXampl params), max (MAXampl params)) = (Some 0, None)
  /\ (min (Saturation params), max (Saturation params)) = (Some 0, Some 5)
  /\ (min (baseline params), max (baseline params)) = (Some 0, None).

(** ** Stand-ins for the collaborators, used to run the pipeline *)

(** A least-squares routine that stops at its starting point (moved
    into the bounds) and raises on a residual that is not finite. *)
Definition minimize_start : objective -> lmfit_Parameters -> list R -> list R
                            -> outcome MinimizerResult :=
  fun f params contrast data =>
    let start := clip_parameters params in
    r <- f start contrast data ;;
    match all_finite r with
    | Some res => Returns (mkResult start res)
    | None => Raises "ValueError"
    end.

(** A least-squares routine that stops at the internal variables [x]. *)
Definition leastsq_at (x : internal)
  : (internal -> outcome (list float)) -> internal -> outcome internal :=
  fun _ _ => Returns x.

(** Exact arithmetic as an instance of the binary64 operations. *)
Definition rnd_exact : R -> float := fun x => Some x.
Definition pw_exact : R -> R -> float := float_pow.

(** Arithmetic that underflows as binary64 does and is exact otherwise:
    a number of magnitude at most [2^-1075], half of the smallest
    positive binary64 number, is rounded to 0. *)
Definition smallest_half : R := / 2 ^ 1075.
Definition rnd_underflow : R -> float :=
  fun x => if Rle_dec (Rabs x) smallest_half then Some 0 else Some x.
Definition pw_underflow : R -> R -> float :=
  fun x y =>
    match float_pow x y with
    | Some v => rnd_underflow v
    | None => None
    end.

(** An evaluation without rounding errors. *)
Definition no_errors : rounding_errors := mkErrors 0 0 0 0 0 0 0.

(** A report and a table writer that succeed. *)
Definition report_ok : string -> string -> string ->
    list R -> list R -> list float -> list float -> list R ->
    lmfit_Parameters -> float -> outcome unit :=
  fun _ _ _ _ _ _ _ _ _ _ => Returns tt.

Definition to_csv_ok : string -> results_table -> outcome unit :=
  fun _ _ => Returns tt.

(** A table with one subject. *)
Definition one_subject_csv : string -> outcome (list csv_row) :=
  fun _ => Returns [mkRow "Subject_1" 1 3 6 9 10 1].

(** Five responses, and contrast levels of which the first is 0. *)
Definition sample_responses : list R := [1; 3; 6; 9; 10].
Definition contrasts_with_zero : list R := [0; 1 / 10; 2 / 10; 4 / 10; 8 / 10].

(** Parameter sets used as examples. *)
Definition params_of (semisat Rmax s b : R) : lmfit_Parameters :=
  {| semisaturation := mkParameter semisat (Some 0) (Some 50) true;
     MAXampl := mkParameter Rmax (Some 0) None true;
     Saturation := mkParameter s (Some 0) (Some 5) true;
     baseline := mkParameter b (Some 0) None true |}.

End ModelFitting.

(* ====================================================================== *)
(** * Reaction-time batch run *)
(* ====================================================================== *)

Module ReactionTimesRun.

Import ReactionTimes.
Import ModelFitting.
Local Open Scope string_scope.
Local Open Scope Z_scope.

(** [process_reaction_times.py], the file paths. *)
Definition DATA_PATH : string := "{path_to_original_data}".
Definition OUTPUT_PATH : string := "{path_to_data}".
Definition EPOCH_TYPE : string := "_gratings-lagcorrected-epo.fif".

(** The values [process_subject_log] puts into the tuple it returns. *)
Inductive pyval : Type :=
| PyNone
| PyCodes (codes : list string)
| PyTimes (times : list Z)
| PyLog (log_data : list entry).

(** The five grating labels of [process_subject_log]. *)
Definition GRATING_LABELS : list string :=
  ["gr_0"; "gr_1"; "gr_2"; "gr_3"; "gr_4"].

(** [e in labels] on strings. *)
Definition str_in (e : string) (labels : list string) : bool :=
  existsb (String.eqb e) labels.

(** One dictionary of [all_response_data]. *)
Record subject_row : Type := mkSubjectRow {
  row_subject : string;
  row_group : Z;
  row_events : pyval;
  row_times : pyval;
  row_response_types : list Z;
  row_time_differences : list time_diff_t;
  row_valid_indices : list nat
}.

(** [[i for i, element in enumerate(drop_log) if not element]], counting
    from [i]. *)
Fixpoint valid_indices_from (i : nat) (drop_log : list (list string)) : list nat :=
  match drop_log with
  | [] => []
  | element :: rest =>
      match element with
      | [] => i :: valid_indices_from (S i) rest
      | _ :: _ => valid_indices_from (S i) rest
      end
  end.

Section Run.

(** What the script takes from outside: the global name
    [path_to_original_data] of the f-string (the module does not assign
    it), [os.path.exists], [pd.read_csv] with the selection of the
    "Code" and "Time" columns, [mne.read_epochs(...).drop_log], and
    [to_csv]. *)
Variable path_to_original_data : outcome string.
Variable path_exists : string -> bool.
Variable read_log : string -> outcome (list entry).
Variable read_drop_log : string -> outcome (list (list string)).
Variable rows_to_csv : string -> list subject_row -> outcome unit.

(** [process_subject_log(subject)]: the tuple it returns, as a list. *)
Definition process_subject_log (subject : string) : outcome (list pyval) :=
  log_path <-
    (if str_in subject [""]
     then Returns (OUTPUT_PATH ++ subject ++ "-Gratings_visual_snow.log")
     else
       root <- path_to_original_data ;;
       Returns ("/" ++ root ++ "/Logfiles/" ++ subject
                ++ "-Gratings_visual_snow.log")) ;;
  if negb (path_exists log_path) || str_in subject ["S016"; "S222"]
  then Returns [PyNone; PyNone; PyNone; PyNone]
  else
    log_data <- read_log log_path ;;
    let grating_events :=
      filter (fun e => str_in e GRATING_LABELS) (map fst log_data) in
    let event_times :=
      map snd (filter (fun row : entry => str_in (fst row) grating_events)
                      log_data) in
    let grating_events :=
      if String.eqb subject "" then skipn 5 grating_events else grating_events in
    let event_times :=
      if String.eqb subject "" then skipn 5 event_times else event_times in
    Returns [PyCodes grating_events; PyTimes event_times; PyLog log_data].

Definition epoch_path (subject : string) : string :=
  DATA_PATH ++ subject ++ "/ICA_notch/gratings_epochs/" ++ subject ++ EPOCH_TYPE.

(** The [for subject in ALL_SUBJECTS] loop of [main]: the tuple is
    unpacked into three names, a [None] in the first one skips the
    subject. *)
Fixpoint collect_rows (subjects : list string) : outcome (list subject_row) :=
  match subjects with
  | [] => Returns []
  | subject :: rest =>
      result <- process_subject_log subject ;;
      match result with
      | [grating_events; event_times; log_data] =>
          match grating_events with
          | PyNone => collect_rows rest
          | _ =>
              drop_log <- read_drop_log (epoch_path subject) ;;
              let valid_indices := valid_indices_from 0 drop_log in
              match log_data with
              | PyLog rows =>
                  let '(response_types, time_differences) :=
                    classify_responses rows in
                  match String.get 1 subject with
                  | None => Raises "IndexError"
                  | Some second =>
                      let group :=
                        if Ascii.eqb second "0"%char then 0 else 1 in
                      let subject_data :=
                        mkSubjectRow subject group grating_events event_times
                                     response_types time_differences
                                     valid_indices in
                      others <- collect_rows rest ;;
                      Returns (subject_data :: others)
                  end
              | _ => Raises "TypeError"
              end
          end
      | _ => Raises "ValueError"
      end
  end.

(** [main()], with the subject list as an argument: the rows it writes. *)
Definition main (subjects : list string) : outcome (list subject_row) :=
  all_response_data <- collect_rows subjects ;;
  _ <- rows_to_csv (OUTPUT_PATH ++ "response_time.csv") all_response_data ;;
  Returns all_response_data.

(** What a written row says about its subject: the log and the drop log
    it was built from. *)
Definition row_of (subject : string) (row : subject_row) : Prop :=
  row_subject row = subject
  /\ str_in subject ["S016"; "S222"] = false
  /\ (exists log_path log_data,
        path_exists log_path = true
        /\ read_log log_path = Returns log_data
        /\ row_response_types row = fst (classify_responses log_data)
        /\ row_time_differences row = snd (classify_responses log_data)
        /\ let gratings :=
             filter (fun r : entry => str_in (fst r) GRATING_LABELS) log_data in
           let kept := if String.eqb subject "" then skipn 5 gratings
                       else gratings in
           row_events row = PyCodes (map fst kept)
           /\ row_times row = PyTimes (map snd kept))
  /\ (exists drop_log,
        read_drop_log (epoch_path subject) = Returns drop_log
        /\ row_valid_indices row = valid_indices_from 0 drop_log)
  /\ (exists second,
        String.get 1 subject = Some second
        /\ row_group row = if Ascii.eqb second "0"%char then 0 else 1).

End Run.

(** ** Stand-ins for the outside world, used to run the batch *)

Definition root_ok : outcome string := Returns "data".
Definition root_unbound : outcome string := Raises "NameError".
Definition log_present : string -> bool := fun _ => true.
Definition log_absent : string -> bool := fun _ => false.
Definition read_log_ok : string -> outcome (list entry) :=
  fun _ => Returns on_time_log.
Definition read_drop_log_ok : string -> outcome (list (list string)) :=
  fun _ => Returns [[]; ["USER"]; []].
Definition rows_to_csv_ok : string -> list subject_row -> outcome unit :=
  fun _ _ => Returns tt.

End ReactionTimesRun.

(* ====================================================================== *)
(** * Additional behavioural variables *)
(* ====================================================================== *)

Module BehavioralData.

Import ModelFitting.
Local Open Scope string_scope.
Local Open Scope Z_scope.

(** One row of [epochs.events]: sample, previous value, event id. *)
Definition event : Type := (Z * Z * Z)%type.

(** [events[i][0]] *)
Definition sample (e : event) : Z := fst (fst e).

(** [correct_cross_run_timing] and [find_previous_same_type]: both
    return [np.nan]. *)
Definition correct_cross_run_timing (index : nat) (events : list event)
  : option Z := None.
Definition find_previous_same_type (index : nat) (events : list event)
  : option Z := None.

(** The body of the [for i in range(1, len(events))] loop, walking over
    [events[i-1]] and the events behind it. *)
Fixpoint timing_loop (events : list event) (i : nat) (previous : event)
         (rest : list event) : list (option Z) * list (option Z) :=
  match rest with
  | [] => ([], [])
  | current :: rest' =>
      let time_diff := sample current - sample previous in
      let time_diff :=
        if time_diff <? 0 then correct_cross_run_timing i events
        else Some time_diff in
      let same_type_time := find_previous_same_type i events in
      let '(time_to_previous, time_to_same) :=
        timing_loop events (S i) current rest' in
      (time_diff :: time_to_previous, same_type_time :: time_to_same)
  end.

(** [calculate_timing_variables(epochs, raw_files)] on [epochs.events]. *)
Definition calculate_timing_variables (events : list event)
  : list (option Z) * list (option Z) :=
  match events with
  | [] => ([None], [None])
  | first :: rest =>
      let '(time_to_previous, time_to_same) := timing_loop events 1 first rest in
      (None :: time_to_previous, None :: time_to_same)
  end.

(** The columns of the data frame [add_block_information] works on. *)
Record df_row : Type := mkDfRow {
  subject : string;
  orderN : Z;
  block_num : Z
}.

(** One row of the break table. *)
Record break_row : Type := mkBreakRow {
  subj : string;
  epoch_before_break1 : Z;
  epoch_before_break2 : Z;
  epoch_after : Z
}.

(** [df.loc[mask, 'block_num'] = block] *)
Definition assign_where (mask : df_row -> bool) (block : Z) (df : list df_row)
  : list df_row :=
  map (fun row => if mask row
                  then mkDfRow (subject row) (orderN row) block
                  else row) df.

(** The three assignments for one subject. *)
Definition categorize (subject_id : string) (break1 break2 total : Z)
           (df : list df_row) : list df_row :=
  let subject_mask row := String.eqb (subject row) subject_id in
  let df := assign_where (fun row => subject_mask row && (orderN row <? break1))
                         1 df in
  let df := assign_where (fun row => subject_mask row && (break1 <=? orderN row)
                                     && (orderN row <? break1 + break2))
                         2 df in
  assign_where (fun row => subject_mask row && (break1 + break2 <=? orderN row)
                           && (orderN row <? break1 + break2 + total))
               3 df.

(** [df['subject'].unique()]: the values in order of first appearance. *)
Fixpoint unique_from (seen : list string) (values : list string) : list string :=
  match values with
  | [] => []
  | v :: rest =>
      if existsb (String.eqb v) seen then unique_from seen rest
      else v :: unique_from (v :: seen) rest
  end.

Definition unique (values : list string) : list string := unique_from [] values.

(** The [for subject in df['subject'].unique()] loop. *)
Fixpoint block_loop (break_info : list break_row) (subjects : list string)
         (df : list df_row) : outcome (list df_row) :=
  match subjects with
  | [] => Returns df
  | subject_id :: rest =>
      match filter (fun info => String.eqb (subj info) subject_id) break_info with
      | [] => Raises "IndexError"
      | subject_info :: _ =>
          let break1 := epoch_before_break1 subject_info in
          let break2 := epoch_before_break2 subject_info in
          let total := epoch_after subject_info in
          block_loop break_info rest
                     (categorize subject_id break1 break2 total df)
      end
  end.

(** [add_block_information(df, break_info)] *)
Definition add_block_information (df : list df_row) (break_info : list break_row)
  : outcome (list df_row) :=
  let df := map (fun row => mkDfRow (subject row) (orderN row) 0) df in
  block_loop break_info (unique (map subject df)) df.

(** The block a row gets from the three assignments, starting from [old]. *)
Definition block_after (break1 break2 total : Z) (order old : Z) : Z :=
  let b := if order <? break1 then 1 else old in
  let b := if (break1 <=? order) && (order <? break1 + break2) then 2 else b in
  if (break1 + break2 <=? order) && (order <? break1 + break2 + total)
  then 3 else b.

(** The first row of the break table for a subject. *)
Definition break_of (break_info : list break_row) (subject_id : string)
  : option break_row :=
  match filter (fun info => String.eqb (subj info) subject_id) break_info with
  | [] => None
  | subject_info :: _ => Some subject_info
  end.

(** The row a subject loop over [subjects] leaves behind. *)
Definition updated (break_info : list break_row) (subjects : list string)
           (row : df_row) : df_row :=
  if existsb (String.eqb (subject row)) subjects then
    match break_of break_info (subject row) with
    | Some info =>
        mkDfRow (subject row) (orderN row)
                (block_after (epoch_before_break1 info) (epoch_before_break2 info)
                             (epoch_after info) (orderN row) (block_num row))
    | None => row
    end
  else row.

(** Examples: three events in time order; four epochs of one subject
    and its break table. *)
Definition sample_events : list event := [(100, 0, 1); (250, 0, 2); (400, 0, 1)].
Definition sample_df : list df_row :=
  [mkDfRow "S001" 3 9; mkDfRow "S001" 12 9; mkDfRow "S001" 25 9;
   mkDfRow "S001" 40 9].
Definition sample_breaks : list break_row := [mkBreakRow "S001" 10 10 10].

End BehavioralData.

(* ====================================================================== *)
(** * Properties of the reaction-time classification *)
(* ====================================================================== *)

Section ReactionTimesFacts.

Import ReactionTimes.
Local Open Scope string_scope.
Local Open Scope Z_scope.

(** *** Unfolding equations of the two loops *)

Lemma classify_loop_cons (label : string) (t : Z) (rest : list entry) :
  classify_loop ((label, t) :: rest) =
  if is_grating label
  then parse_block classify_loop ((label, t) :: rest) no_times
  else classify_loop rest.
Proof. reflexivity. Qed.

Lemma parse_block_cons resume (label : string) (t : Z) rest bt :
  parse_block resume ((label, t) :: rest) bt =
  if ends_block label
  then append_trial bt (resume rest)
  else parse_block resume rest (record_event bt label t).
Proof. reflexivity. Qed.

Lemma trial_rows_cons (label : string) (t : Z) (rest : list entry) :
  trial_rows ((label, t) :: rest) =
  if is_grating label
  then take_block trial_rows ((label, t) :: rest) []
  else trial_rows rest.
Proof. reflexivity. Qed.

Lemma take_block_cons resume (label : string) (t : Z) rest seen :
  take_block resume ((label, t) :: rest) seen =
  if ends_block label
  then rev seen :: resume rest
  else take_block resume rest ((label, t) :: seen).
Proof. reflexivity. Qed.

(** A grating label never closes a block. *)
Lemma grating_not_block_end (label : string) :
  is_grating label = true -> ends_block label = false.
Proof.
  unfold ends_block. intros Hg.
  destruct (String.eqb_spec label "fix") as [-> | _]; [discriminate Hg |].
  destruct (String.eqb_spec label "anim") as [-> | _]; [discriminate Hg |].
  reflexivity.
Qed.

(** The row at which the inner loop stops is stepped over by the outer
    loop. *)
Lemma classify_loop_skips_block_end (label : string) (t : Z) rest :
  ends_block label = true ->
  classify_loop ((label, t) :: rest) = classify_loop rest.
Proof.
  intros He. rewrite classify_loop_cons.
  destruct (is_grating label) eqn:Hg; [| reflexivity].
  apply grating_not_block_end in Hg. congruence.
Qed.

(** *** The loops classify the trials one by one *)

Lemma append_trial_outputs rows trials :
  append_trial (collect rows) (outputs_of_trials trials) =
  outputs_of_trials (rows :: trials).
Proof.
  unfold append_trial, outputs_of_trials. simpl.
  destruct (classify_trial (collect rows)); reflexivity.
Qed.

Lemma collect_snoc seen (label : string) (t : Z) :
  record_event (collect (rev seen)) label t = collect (rev ((label, t) :: seen)).
Proof.
  unfold collect, collect_from. simpl. rewrite fold_left_app. reflexivity.
Qed.

Lemma parse_block_trials (n : nat) :
  (forall l, (List.length l < n)%nat ->
             classify_loop l = outputs_of_trials (trial_rows l)) ->
  forall log seen, (List.length log <= n)%nat ->
    parse_block classify_loop log (collect (rev seen)) =
    outputs_of_trials (take_block trial_rows log seen).
Proof.
  intros IH log. induction log as [| [label t] rest IHlog]; intros seen Hlen.
  - simpl. apply (append_trial_outputs (rev seen) []).
  - simpl in Hlen. rewrite parse_block_cons, take_block_cons.
    destruct (ends_block label).
    + rewrite IH by lia. apply append_trial_outputs.
    + rewrite collect_snoc. apply IHlog. lia.
Qed.

Lemma classify_loop_trials (log : list entry) :
  classify_loop log = outputs_of_trials (trial_rows log).
Proof.
  remember (List.length log) as n eqn:Hn.
  assert (Hle : (List.length log <= n)%nat) by lia. clear Hn.
  revert log Hle. induction n as [| n IHn]; intros log Hle.
  - destruct log; [reflexivity | simpl in Hle; lia].
  - destruct log as [| [label t] rest]; [reflexivity |].
    rewrite classify_loop_cons, trial_rows_cons.
    destruct (is_grating label).
    + apply (parse_block_trials (S n) (fun l Hl => IHn l ltac:(lia))
               ((label, t) :: rest) [] Hle).
    + apply IHn. simpl in Hle. lia.
Qed.

(** *** Trials and grating events *)

Lemma count_gratings_cons (label : string) (t : Z) rest :
  count_gratings ((label, t) :: rest) =
  ((if is_grating label then 1 else 0) + count_gratings rest)%nat.
Proof. unfold count_gratings. simpl. destruct (is_grating label); reflexivity. Qed.

Lemma take_block_count (n : nat) :
  (forall l, (List.length l < n)%nat ->
             (List.length (trial_rows l) <= count_gratings l)%nat) ->
  forall log seen, (List.length log <= n)%nat ->
    (List.length (take_block trial_rows log seen) <= 1 + count_gratings log)%nat.
Proof.
  intros IH log. induction log as [| [label t] rest IHlog]; intros seen Hlen.
  - simpl. lia.
  - simpl in Hlen. rewrite take_block_cons, count_gratings_cons.
    destruct (ends_block label).
    + simpl. specialize (IH rest ltac:(lia)). lia.
    + specialize (IHlog ((label, t) :: seen) ltac:(lia)). lia.
Qed.

Lemma trial_rows_count (log : list entry) :
  (List.length (trial_rows log) <= count_gratings log)%nat.
Proof.
  remember (List.length log) as n eqn:Hn.
  assert (Hle : (List.length log <= n)%nat) by lia. clear Hn.
  revert log Hle. induction n as [| n IHn]; intros log Hle.
  - destruct log; [simpl; lia | simpl in Hle; lia].
  - destruct log as [| [label t] rest]; [simpl; lia |].
    simpl in Hle. rewrite trial_rows_cons, count_gratings_cons.
    destruct (is_grating label) eqn:Hg.
    + rewrite take_block_cons, (grating_not_block_end _ Hg).
      apply (take_block_count n (fun l Hl => IHn l ltac:(lia))). lia.
    + simpl. apply IHn. lia.
Qed.

Lemma take_block_separated (n : nat) :
  (forall l, (List.length l < n)%nat -> separated false l = true ->
             List.length (trial_rows l) = count_gratings l) ->
  forall log seen, (List.length log <= n)%nat -> separated true log = true ->
    List.length (take_block trial_rows log seen) = (1 + count_gratings log)%nat.
Proof.
  intros IH log. induction log as [| [label t] rest IHlog]; intros seen Hlen Hsep.
  - reflexivity.
  - simpl in Hlen. rewrite take_block_cons, count_gratings_cons.
    simpl in Hsep. destruct (ends_block label) eqn:He.
    + destruct (is_grating label) eqn:Hg.
      { apply grating_not_block_end in Hg. congruence. }
      simpl. rewrite (IH rest ltac:(lia) Hsep). reflexivity.
    + destruct (is_grating label); [discriminate Hsep |].
      apply (IHlog ((label, t) :: seen) ltac:(lia) Hsep).
Qed.

Lemma trial_rows_separated (log : list entry) :
  separated false log = true ->
  List.length (trial_rows log) = count_gratings log.
Proof.
  remember (List.length log) as n eqn:Hn.
  assert (Hle : (List.length log <= n)%nat) by lia. clear Hn.
  revert log Hle. induction n as [| n IHn]; intros log Hle Hsep.
  - destruct log; [reflexivity | simpl in Hle; lia].
  - destruct log as [| [label t] rest]; [reflexivity |].
    simpl in Hle. rewrite trial_rows_cons, count_gratings_cons.
    simpl in Hsep. destruct (is_grating label) eqn:Hg.
    + rewrite (grating_not_block_end _ Hg) in Hsep. simpl in Hsep.
      rewrite take_block_cons, (grating_not_block_end _ Hg).
      apply (take_block_separated n (fun l Hl => IHn l ltac:(lia))); [lia | exact Hsep].
    + destruct (ends_block label); apply IHn; (lia || exact Hsep).
Qed.

Lemma is_trial_snoc rows (label : string) (t : Z) :
  is_trial rows -> ends_block label = false ->
  is_trial (rows ++ [(label, t)]).
Proof.
  intros [Hhead Hall] He. split.
  - destruct rows as [| [l0 t0] rows']; [contradiction | exact Hhead].
  - apply Forall_app. split; [exact Hall |]. constructor; [exact He | constructor].
Qed.

Lemma take_block_shape (n : nat) :
  (forall l, (List.length l < n)%nat -> Forall is_trial (trial_rows l)) ->
  forall log seen, (List.length log <= n)%nat -> is_trial (rev seen) ->
    Forall is_trial (take_block trial_rows log seen).
Proof.
  intros IH log. induction log as [| [label t] rest IHlog]; intros seen Hlen Hseen.
  - simpl. constructor; [exact Hseen | constructor].
  - simpl in Hlen. rewrite take_block_cons.
    destruct (ends_block label) eqn:He.
    + constructor; [exact Hseen | apply IH; lia].
    + apply IHlog; [lia |]. simpl. apply is_trial_snoc; assumption.
Qed.

Lemma trial_rows_shape (log : list entry) : Forall is_trial (trial_rows log).
Proof.
  remember (List.length log) as n eqn:Hn.
  assert (Hle : (List.length log <= n)%nat) by lia. clear Hn.
  revert log Hle. induction n as [| n IHn]; intros log Hle.
  - destruct log; [constructor | simpl in Hle; lia].
  - destruct log as [| [label t] rest]; [constructor |].
    simpl in Hle. rewrite trial_rows_cons.
    destruct (is_grating label) eqn:Hg.
    + rewrite take_block_cons, (grating_not_block_end _ Hg).
      apply (take_block_shape n (fun l Hl => IHn l ltac:(lia))); [lia |].
      split; [exact Hg |].
      constructor; [exact (grating_not_block_end _ Hg) | constructor].
    + apply IHn. lia.
Qed.

(** *** One trial *)

Lemma classify_trial_class (bt : block_times) :
  In (fst (classify_trial bt)) [0; 1; 2; 3].
Proof.
  unfold classify_trial.
  destruct (disappear_time bt) as [dt |]; [| simpl; tauto].
  destruct (response_time bt) as [rt |].
  - destruct (rt <? dt); [simpl; tauto |].
    destruct ((dt <=? rt) && (rt <=? dt + RESPONSE_WINDOW)); [simpl; tauto |].
    destruct (late_time bt) as [lt |].
    + destruct (lt <? rt); [simpl; tauto |].
      destruct ((dt + RESPONSE_WINDOW <? rt) && false && (rt - dt <? 10000));
        simpl; tauto.
    + destruct ((dt + RESPONSE_WINDOW <? rt) && true && (rt - dt <? 10000));
        simpl; tauto.
  - destruct (late_time bt); simpl; tauto.
Qed.

Lemma classify_trial_nan (bt : block_times) :
  snd (classify_trial bt) = None <->
  response_time bt = None \/ disappear_time bt = None.
Proof.
  unfold classify_trial.
  destruct (disappear_time bt) as [dt |]; [| simpl; tauto].
  destruct (response_time bt) as [rt |].
  - repeat match goal with
           | |- context [if ?c then _ else _] => destruct c
           | |- context [match late_time bt with _ => _ end] =>
               destruct (late_time bt)
           end; simpl; split; intros H; try discriminate;
      destruct H; discriminate.
  - destruct (late_time bt); simpl; tauto.
Qed.

Lemma classify_trial_timed (bt : block_times) (dt rt : Z) :
  disappear_time bt = Some dt -> response_time bt = Some rt ->
  snd (classify_trial bt) = Some (rt - dt).
Proof.
  unfold classify_trial. intros -> ->.
  repeat match goal with
         | |- context [if ?c then _ else _] => destruct c
         | |- context [match late_time bt with _ => _ end] =>
             destruct (late_time bt)
         end; reflexivity.
Qed.

(** *** The events of a trial *)

Lemma response_time_collect_from rows : forall bt,
  response_time (collect_from bt rows) = None <->
  response_time bt = None /\ has_event "16" rows = false.
Proof.
  induction rows as [| [label t] rows IH]; intros bt.
  - simpl. tauto.
  - unfold collect_from in *. simpl. rewrite IH. unfold record_event.
    destruct (String.eqb_spec label "disappear") as [-> | _]; [simpl; tauto |].
    destruct (String.eqb_spec label "16") as [-> | _].
    + simpl. split; intros [H1 H2]; discriminate.
    + destruct (String.eqb label "late"); simpl; tauto.
Qed.

Lemma disappear_time_collect_from rows : forall bt,
  disappear_time (collect_from bt rows) = None <->
  disappear_time bt = None /\ has_event "disappear" rows = false.
Proof.
  induction rows as [| [label t] rows IH]; intros bt.
  - simpl. tauto.
  - unfold collect_from in *. simpl. rewrite IH. unfold record_event.
    destruct (String.eqb_spec label "disappear") as [-> | _].
    + simpl. split; intros [H1 H2]; discriminate.
    + destruct (String.eqb_spec label "16") as [-> | _]; [simpl; tauto |].
      destruct (String.eqb label "late"); simpl; tauto.
Qed.

Lemma trial_nan (rows : list entry) :
  snd (classify_trial (collect rows)) = None <->
  has_event "16" rows = false \/ has_event "disappear" rows = false.
Proof.
  rewrite classify_trial_nan. unfold collect.
  rewrite response_time_collect_from, disappear_time_collect_from.
  simpl. tauto.
Qed.

(** *** The claims *)

(** C9, as it stands, fails: two grating events with no ['fix'] /
    ['anim'] row between them are parsed as one stimulus block, so the
    output has one entry for two grating events. *)
Lemma classify_responses_back_to_back :
  classify_responses back_to_back_log = ([3], [None])
  /\ count_gratings back_to_back_log = 2%nat
  /\ List.length (fst (classify_responses back_to_back_log))
     <> count_gratings back_to_back_log.
Proof. repeat split. vm_compute. discriminate. Qed.

(** C9, amended: [classify_responses] returns two lists of equal
    length with exactly one entry per stimulus block (a grating row and
    the rows behind it up to the next ['fix'] / ['anim'] row): at most
    one per grating event, and exactly one when every grating event is
    followed by a ['fix'] / ['anim'] row before the next one.  Every
    response class is 0, 1, 2 or 3, and the time difference is NaN
    exactly when the block has no response row (['16']) or no
    ['disappear'] row. *)
Theorem classify_responses_per_block (log_data : list entry) :
  let response_types := fst (classify_responses log_data) in
  let time_differences := snd (classify_responses log_data) in
  List.length response_types = List.length time_differences
  /\ Forall is_trial (trial_rows log_data)
  /\ List.length response_types = List.length (trial_rows log_data)
  /\ (List.length response_types <= count_gratings log_data)%nat
  /\ (separated false log_data = true ->
      List.length response_types = count_gratings log_data)
  /\ Forall (fun response_class => In response_class [0; 1; 2; 3]) response_types
  /\ Forall2 (fun rows time_diff =>
                time_diff = None <->
                has_event "16" rows = false \/ has_event "disappear" rows = false)
             (trial_rows log_data) time_differences.
Proof.
  unfold classify_responses. rewrite classify_loop_trials.
  unfold outputs_of_trials. cbn [fst snd]. rewrite !length_map.
  repeat split.
  - apply trial_rows_shape.
  - apply trial_rows_count.
  - apply trial_rows_separated.
  - apply Forall_forall. intros c Hc. apply in_map_iff in Hc.
    destruct Hc as [rows [<- _]]. apply classify_trial_class.
  - induction (trial_rows log_data) as [| rows trials IH]; simpl.
    + constructor.
    + constructor; [apply trial_nan | exact IH].
Qed.

Lemma classify_responses_per_block_witness :
  separated false on_time_log = true
  /\ List.length (fst (classify_responses on_time_log)) = count_gratings on_time_log.
Proof.
  split; [reflexivity |].
  apply (classify_responses_per_block on_time_log). reflexivity.
Defined.





End ReactionTimesFacts.

(* ====================================================================== *)
(** * Properties of the contrast response fit *)
(* ====================================================================== *)

Section ModelFacts.

Import ModelFitting.
Local Open Scope R_scope.

(** *** Powers *)

Lemma Rpower_positive (x y : R) : 0 < Rpower x y.
Proof. unfold Rpower. apply exp_pos. Qed.

Lemma Rpower_nat (n : nat) (x : R) : 0 < x -> Rpower x (INR n) = x ^ n.
Proof. apply Rpower_pow. Qed.

Lemma Rpower_two (x : R) : 0 < x -> Rpower x 2 = x ^ 2.
Proof. intros Hx. rewrite <- (Rpower_nat 2 x Hx). reflexivity. Qed.

Lemma Rpower_base_one (y : R) : Rpower 1 y = 1.
Proof. unfold Rpower. rewrite ln_1, Rmult_0_r. apply exp_0. Qed.

Lemma float_pow_pos (x y : R) : 0 < x -> float_pow x y = Some (Rpower x y).
Proof.
  intros Hx. unfold float_pow. destruct (Rlt_dec 0 x); [reflexivity | contradiction].
Qed.

Lemma float_pow_zero (y : R) : 0 < y -> float_pow 0 y = Some 0.
Proof.
  intros Hy. unfold float_pow.
  destruct (Rlt_dec 0 0) as [H | _]; [lra |].
  destruct (Req_dec_T 0 0) as [_ | H]; [| lra].
  destruct (Rlt_dec 0 y); [reflexivity | contradiction].
Qed.

Lemma frac_part_two : frac_part 2 = 0 /\ Int_part 2 = 2%Z.
Proof.
  assert (Hi : Int_part 2 = 2%Z).
  { symmetry. apply Int_part_spec. simpl. lra. }
  split; [| exact Hi]. unfold frac_part. rewrite Hi. simpl. lra.
Qed.

(** [x ** 2] is the square, whatever the sign of [x]. *)
Lemma float_pow_square (x : R) : float_pow x 2 = Some (x ^ 2).
Proof.
  unfold float_pow.
  destruct (Rlt_dec 0 x) as [Hx | Hx].
  - rewrite (Rpower_two x Hx). reflexivity.
  - destruct (Req_dec_T x 0) as [-> | Hx0].
    + destruct (Rlt_dec 0 2) as [_ | H]; [| lra]. f_equal. simpl. lra.
    + destruct frac_part_two as [Hf Hi]. rewrite Hi.
      destruct (Req_dec_T (frac_part 2) 0) as [_ | H]; [| contradiction].
      reflexivity.
Qed.

Lemma fdiv_nonzero (x y : R) : y <> 0 -> fdiv (fin x) (fin y) = Some (x / y).
Proof.
  intros Hy. unfold fdiv, fin. destruct (Req_dec_T y 0); [contradiction | reflexivity].
Qed.


(** *** The model function *)

(** The value of the model whenever both powers of the denominator are
    finite and do not cancel. *)
Lemma naka_rushton_value (params : lmfit_Parameters) (contrast A B : R) :
  float_pow (value (semisaturation params)) (2 * value (Saturation params)) = Some A ->
  float_pow contrast (2 * value (Saturation params)) = Some B ->
  A + B <> 0 ->
  naka_rushton params contrast =
  Some (value (MAXampl params) * contrast ^ 2 / (A + B) + value (baseline params)).
Proof.
  intros HA HB Hden. unfold naka_rushton, fin. cbn [fpow fmul fadd lift2].
  rewrite float_pow_square, HA, HB. cbn [fmul fadd lift2].
  rewrite (fdiv_nonzero _ _ Hden). reflexivity.
Qed.

Lemma naka_rushton_positive (params : lmfit_Parameters) (contrast : R) :
  0 < value (semisaturation params) -> 0 < contrast ->
  naka_rushton params contrast =
  Some (response (value (semisaturation params)) (value (MAXampl params))
                 (value (Saturation params)) (value (baseline params)) contrast).
Proof.
  intros Hs Hc. unfold response.
  apply naka_rushton_value; try (apply float_pow_pos; assumption).
  pose proof (Rpower_positive (value (semisaturation params))
                              (2 * value (Saturation params))).
  pose proof (Rpower_positive contrast (2 * value (Saturation params))).
  lra.
Qed.



(** The denominator at contrast 0: the power of the semisaturation alone. *)
Lemma denominator_at_zero (params : lmfit_Parameters) :
  0 < value (semisaturation params) -> 0 < value (Saturation params) ->
  let A := Rpower (value (semisaturation params)) (2 * value (Saturation params)) in
  float_pow (value (semisaturation params)) (2 * value (Saturation params)) = Some A
  /\ float_pow 0 (2 * value (Saturation params)) = Some 0
  /\ A + 0 <> 0.
Proof.
  intros Hsemi Hs A. split; [| split].
  - apply float_pow_pos. exact Hsemi.
  - apply float_pow_zero. lra.
  - pose proof (Rpower_positive (value (semisaturation params))
                                (2 * value (Saturation params))).
    unfold A. lra.
Qed.

(** *** Monotonicity *)

Lemma div_le_cross (a b x y : R) :
  0 < x -> 0 < y -> a * y <= b * x -> a / x <= b / y.
Proof.
  intros Hx Hy Hle.
  replace (a / x) with (a * y * / (x * y)) by (field; lra).
  replace (b / y) with (b * x * / (x * y)) by (field; lra).
  apply Rmult_le_compat_r; [| exact Hle].
  left. apply Rinv_0_lt_compat. nra.
Qed.

(** For an exponent [t <= 2] the power [c ^ t] grows no faster than the
    square. *)
Lemma power_below_square (c1 c2 t : R) :
  0 < c1 <= c2 -> t <= 2 ->
  c1 ^ 2 * Rpower c2 t <= c2 ^ 2 * Rpower c1 t.
Proof.
  intros [Hc1 Hle] Ht.
  set (q := c2 / c1).
  assert (Hq : 1 <= q).
  { unfold q. apply (Rmult_le_reg_r c1); [exact Hc1 |].
    replace (c2 / c1 * c1) with c2 by (field; lra). lra. }
  assert (Hc2 : c2 = c1 * q) by (unfold q; field; lra).
  assert (Hpow : Rpower c2 t = Rpower c1 t * Rpower q t).
  { rewrite Hc2. symmetry. apply Rpower_mult_distr; lra. }
  assert (Hqt : Rpower q t <= q ^ 2).
  { rewrite <- (Rpower_two q) by lra. apply Rle_Rpower; assumption. }
  pose proof (Rpower_positive c1 t) as Hu.
  rewrite Hpow.
  replace (c2 ^ 2 * Rpower c1 t) with (c1 ^ 2 * (Rpower c1 t * q ^ 2))
    by (rewrite Hc2; ring).
  apply Rmult_le_compat_l; [nra |].
  apply Rmult_le_compat_l; [lra | exact Hqt].
Qed.

(** C1, as it stands, fails: with saturation exponent 2 (inside its
    bounds) the response falls from 1/2 at contrast 1 to 4/17 at
    contrast 2. *)
Lemma naka_rushton_not_monotone :
  let params := params_of 1 1 2 0 in
  0 < value (Saturation params) /\ 0 < value (semisaturation params)
  /\ 0 < 1 <= 2
  /\ naka_rushton params 1 = Some (1 / 2)
  /\ naka_rushton params 2 = Some (4 / 17)
  /\ 4 / 17 < 1 / 2.
Proof.
  cbv zeta. simpl value.
  assert (H14 : Rpower 1 (2 * 2) = 1) by apply Rpower_base_one.
  assert (H24 : Rpower 2 (2 * 2) = 16).
  { replace (2 * 2) with (INR 4) by (simpl; lra).
    rewrite Rpower_nat by lra. simpl. lra. }
  repeat split; try lra.
  - rewrite naka_rushton_positive by (simpl; lra).
    unfold response. simpl value. rewrite H14. f_equal. field.
  - rewrite naka_rushton_positive by (simpl; lra).
    unfold response. simpl value. rewrite H14, H24. f_equal. field.
Qed.

Lemma Rabs_le_bounds (d eps : R) : Rabs d <= eps -> - eps <= d <= eps.
Proof. unfold Rabs. destruct (Rcase_abs d); lra. Qed.

(** The exact quotient grows with the contrast. *)
Lemma quotient_monotone (A Rmax t c1 c2 : R) :
  0 < A -> 0 <= Rmax -> t <= 2 -> 0 < c1 <= c2 ->
  Rmax * (c1 * c1) / (A + Rpower c1 t) <= Rmax * (c2 * c2) / (A + Rpower c2 t).
Proof.
  intros HA Hmax Ht [Hc1 Hle].
  pose proof (Rpower_positive c1 t) as Hu1.
  pose proof (Rpower_positive c2 t) as Hu2.
  assert (Hkey : c1 ^ 2 * Rpower c2 t <= c2 ^ 2 * Rpower c1 t).
  { apply power_below_square; [lra | lra]. }
  unfold Rdiv. rewrite !Rmult_assoc.
  apply Rmult_le_compat_l; [exact Hmax |].
  rewrite <- !Rmult_assoc.
  apply div_le_cross; [lra | lra |].
  assert (Hsq : c1 * c1 <= c2 * c2) by nra.
  assert (HsqA : c1 * c1 * A <= c2 * c2 * A)
    by (apply Rmult_le_compat_r; lra).
  simpl in Hkey. rewrite !Rmult_1_r in Hkey.
  rewrite !Rmult_plus_distr_l. lra.
Qed.

(** The rounded quotient against the exact one: three roundings above,
    two below. *)
Lemma rounded_quotient (eps Rmax c A B : R) (e : rounding_errors) :
  0 <= eps < 1 -> errors_within eps e ->
  0 <= Rmax -> 0 < A -> 0 < B ->
  let Q := Rmax * (c * c) / (A + B) in
  let T := Rmax * (c * c * (1 + err_square e)) * (1 + err_times e)
           / ((A * (1 + err_pow_semisat e) + B * (1 + err_pow_contrast e))
              * (1 + err_plus e))
           * (1 + err_divide e) in
  0 <= T
  /\ (1 - eps) ^ 2 * T <= (1 + eps) ^ 3 * Q
  /\ (1 - eps) ^ 3 * Q <= (1 + eps) ^ 2 * T.
Proof.
  intros Heps Herr HRmax HA HB Q T.
  destruct Herr as (E1 & E2 & E3 & E4 & E5 & E6 & E7).
  apply Rabs_le_bounds in E1, E2, E3, E4, E5, E6.
  set (lo := 1 - eps). set (hi := 1 + eps).
  assert (Hlo : 0 < lo) by (unfold lo; lra).
  assert (Hhi : 0 < hi) by (unfold hi; lra).
  set (N := Rmax * (c * c)).
  set (D := A + B).
  assert (HN : 0 <= N).
  { unfold N. apply Rmult_le_pos; [exact HRmax |]. apply Rle_0_sqr. }
  assert (HD : 0 < D) by (unfold D; lra).
  set (N' := Rmax * (c * c * (1 + err_square e)) * (1 + err_times e)).
  set (S' := A * (1 + err_pow_semisat e) + B * (1 + err_pow_contrast e)).
  set (D' := S' * (1 + err_plus e)).
  assert (HN' : N * (lo * lo) <= N' <= N * (hi * hi)).
  { unfold N'. replace (Rmax * (c * c * (1 + err_square e)) * (1 + err_times e))
      with (N * ((1 + err_square e) * (1 + err_times e))) by (unfold N; ring).
    assert (lo * lo <= (1 + err_square e) * (1 + err_times e) <= hi * hi).
    { unfold lo, hi. split; apply Rmult_le_compat; lra. }
    split; apply Rmult_le_compat_l; lra. }
  assert (HS' : D * lo <= S' <= D * hi).
  { unfold S', D, lo, hi.
    assert (A * (1 - eps) <= A * (1 + err_pow_semisat e) <= A * (1 + eps))
      by (split; apply Rmult_le_compat_l; lra).
    assert (B * (1 - eps) <= B * (1 + err_pow_contrast e) <= B * (1 + eps))
      by (split; apply Rmult_le_compat_l; lra).
    lra. }
  assert (HDlo : 0 < D * lo) by (apply Rmult_lt_0_compat; assumption).
  assert (HS'pos : 0 < S') by lra.
  assert (HD' : D * (lo * lo) <= D' <= D * (hi * hi)).
  { unfold D'. rewrite <- !Rmult_assoc.
    split; apply Rmult_le_compat; unfold lo, hi in *; lra. }
  assert (HDlo2 : 0 < D * (lo * lo)).
  { apply Rmult_lt_0_compat; [assumption |]. apply Rmult_lt_0_compat; assumption. }
  assert (HD'pos : 0 < D') by lra.
  assert (HNlo2 : 0 <= N * (lo * lo)).
  { apply Rmult_le_pos; [assumption |]. apply Rmult_le_pos; lra. }
  assert (HN'pos : 0 <= N') by lra.
  set (q' := N' / D').
  assert (Hq'pos : 0 <= q').
  { unfold q', Rdiv. apply Rmult_le_pos; [exact HN'pos |].
    left. apply Rinv_0_lt_compat. exact HD'pos. }
  assert (HQ : Q * D = N) by (unfold Q, N, D; field; lra).
  assert (Hq' : q' * D' = N') by (unfold q'; field; lra).
  assert (HQpos : 0 <= Q).
  { unfold Q, Rdiv. apply Rmult_le_pos; [exact HN |].
    left. apply Rinv_0_lt_compat. exact HD. }
  assert (HT : T = q' * (1 + err_divide e)) by reflexivity.
  clearbody T Q q' N' D' N D. subst T.
  assert (Hup : lo * lo * q' <= hi * hi * Q).
  { apply (Rmult_le_reg_r D); [exact HD |].
    replace (hi * hi * Q * D) with (N * (hi * hi)) by (rewrite <- HQ; ring).
    apply Rle_trans with N'; [| lra]. rewrite <- Hq'.
    replace (lo * lo * q' * D) with (q' * (D * (lo * lo))) by ring.
    apply Rmult_le_compat_l; lra. }
  assert (Hlow : lo * lo * Q <= hi * hi * q').
  { apply (Rmult_le_reg_r D); [exact HD |].
    replace (lo * lo * Q * D) with (N * (lo * lo)) by (rewrite <- HQ; ring).
    apply Rle_trans with N'; [lra |]. rewrite <- Hq'.
    replace (hi * hi * q' * D) with (q' * (D * (hi * hi))) by ring.
    apply Rmult_le_compat_l; lra. }
  set (T := q' * (1 + err_divide e)).
  assert (HTb : q' * lo <= T <= q' * hi).
  { unfold T, lo, hi. split; apply Rmult_le_compat_l; lra. }
  assert (Hqlo : 0 <= q' * lo) by (apply Rmult_le_pos; lra).
  split; [lra |].
  replace (lo ^ 2) with (lo * lo) by ring.
  replace (hi ^ 3) with (hi * (hi * hi)) by ring.
  replace (lo ^ 3) with (lo * (lo * lo)) by ring.
  replace (hi ^ 2) with (hi * hi) by ring.
  split.
  - apply Rle_trans with (lo * lo * (q' * hi)).
    + apply Rmult_le_compat_l; [| lra]. apply Rmult_le_pos; lra.
    + replace (lo * lo * (q' * hi)) with (hi * (lo * lo * q')) by ring.
      replace (hi * (hi * hi) * Q) with (hi * (hi * hi * Q)) by ring.
      apply Rmult_le_compat_l; lra.
  - apply Rle_trans with (hi * hi * (q' * lo)).
    + replace (lo * (lo * lo) * Q) with (lo * (lo * lo * Q)) by ring.
      replace (hi * hi * (q' * lo)) with (lo * (hi * hi * q')) by ring.
      apply Rmult_le_compat_l; lra.
    + apply Rmult_le_compat_l; [| lra]. apply Rmult_le_pos; lra.
Qed.


(** The binary64 evaluation is the rounded value for the errors its
    operations commit. *)
Lemma naka_rushton_binary64_rounded (rnd : R -> float) (pw : R -> R -> float)
      (params : lmfit_Parameters) (contrast : R) (e : rounding_errors) :
  let semisat := value (semisaturation params) in
  let Rmax := value (MAXampl params) in
  let s := value (Saturation params) in
  let b := value (baseline params) in
  let square := contrast * contrast * (1 + err_square e) in
  let numerator := Rmax * square * (1 + err_times e) in
  let A := Rpower semisat (2 * s) * (1 + err_pow_semisat e) in
  let B := Rpower contrast (2 * s) * (1 + err_pow_contrast e) in
  let denominator := (A + B) * (1 + err_plus e) in
  let quotient := numerator / denominator * (1 + err_divide e) in
  rnd (contrast * contrast) = Some square ->
  rnd (Rmax * square) = Some numerator ->
  rnd (2 * s) = Some (2 * s) ->
  pw semisat (2 * s) = Some A ->
  pw contrast (2 * s) = Some B ->
  rnd (A + B) = Some denominator ->
  denominator <> 0 ->
  rnd (numerator / denominator) = Some quotient ->
  rnd (quotient + b) = Some ((quotient + b) * (1 + err_base e)) ->
  naka_rushton_binary64 rnd pw params contrast
  = Some (naka_rushton_rounded params contrast e).
Proof.
  cbv zeta. intros Hsq Hmul H2s HA HB Hadd Hden Hdiv Hbase.
  unfold naka_rushton_binary64, naka_rushton_rounded, fin. cbv zeta.
  unfold rmul, rounded. rewrite Hsq, Hmul, H2s.
  unfold rpow. rewrite HA, HB.
  unfold radd at 2. unfold rounded. rewrite Hadd.
  unfold rdiv. destruct (Req_dec_T _ 0) as [H | _]; [contradiction |].
  rewrite Hdiv. unfold radd, rounded. exact Hbase.
Qed.

(** With no rounding error the rounded value is the formula. *)
Lemma naka_rushton_rounded_exact (params : lmfit_Parameters) (contrast : R) :
  naka_rushton_rounded params contrast no_errors =
  response (value (semisaturation params)) (value (MAXampl params))
           (value (Saturation params)) (value (baseline params)) contrast.
Proof.
  unfold naka_rushton_rounded, response, no_errors. cbv zeta.
  cbn [err_square err_times err_pow_semisat err_pow_contrast err_plus
       err_divide err_base].
  rewrite !Rplus_0_r, !Rmult_1_r. replace (contrast ^ 2) with (contrast * contrast) by ring.
  reflexivity.
Qed.

(** C1, amended: for a positive semisaturation, a saturation exponent
    in (0, 1], a maximum amplitude and a baseline that are not negative
    and positive contrast values [c1 <= c2], the model formula is
    non-decreasing, [response c1 <= response c2], in exact arithmetic;
    the values the code computes in floating point are non-decreasing up
    to rounding: when every operation of the two evaluations has a
    relative rounding error of at most [eps] (2^-52 for binary64
    operations that neither underflow nor overflow),
    [(1 - eps)^6 * computed c1 <= (1 + eps)^6 * computed c2]. *)
Theorem naka_rushton_monotone (params : lmfit_Parameters) (c1 c2 eps : R)
        (e1 e2 : rounding_errors) :
  0 < value (semisaturation params) ->
  0 < value (Saturation params) <= 1 ->
  0 <= value (MAXampl params) ->
  0 <= value (baseline params) ->
  0 < c1 <= c2 ->
  0 <= eps < 1 -> errors_within eps e1 -> errors_within eps e2 ->
  (exists r1 r2,
     naka_rushton params c1 = Some r1 /\ naka_rushton params c2 = Some r2
     /\ r1 = naka_rushton_rounded params c1 no_errors
     /\ r2 = naka_rushton_rounded params c2 no_errors
     /\ r1 <= r2)
  /\ (1 - eps) ^ 6 * naka_rushton_rounded params c1 e1
     <= (1 + eps) ^ 6 * naka_rushton_rounded params c2 e2.
Proof.
  intros Hsemi [Hs0 Hs1] Hmax Hbase [Hc1 Hle] Heps He1 He2.
  rewrite !naka_rushton_rounded_exact.
  rewrite (naka_rushton_positive params c1 Hsemi Hc1).
  rewrite (naka_rushton_positive params c2 Hsemi ltac:(lra)).
  enough (Hgoal :
    response (value (semisaturation params)) (value (MAXampl params))
             (value (Saturation params)) (value (baseline params)) c1
    <= response (value (semisaturation params)) (value (MAXampl params))
                (value (Saturation params)) (value (baseline params)) c2
    /\ (1 - eps) ^ 6 * naka_rushton_rounded params c1 e1
       <= (1 + eps) ^ 6 * naka_rushton_rounded params c2 e2).
  { destruct Hgoal as [Hexact Hround]. split; [| exact Hround].
    do 2 eexists. split; [reflexivity |]. split; [reflexivity |].
    split; [reflexivity |]. split; [reflexivity | exact Hexact]. }
  set (t := 2 * value (Saturation params)).
  pose proof (Rpower_positive (value (semisaturation params)) t) as HA.
  pose proof (Rpower_positive c1 t) as HB1.
  pose proof (Rpower_positive c2 t) as HB2.
  assert (Ht : t <= 2) by (unfold t; lra).
  pose proof (quotient_monotone _ (value (MAXampl params)) t c1 c2 HA Hmax Ht
                                (conj Hc1 Hle)) as Hmono.
  split.
  - unfold response. fold t. apply Rplus_le_compat_r.
    replace (c1 ^ 2) with (c1 * c1) by ring.
    replace (c2 ^ 2) with (c2 * c2) by ring. exact Hmono.
  - destruct (rounded_quotient eps (value (MAXampl params)) c1 _ _ e1
                Heps He1 Hmax HA HB1) as (HT1 & Hup1 & _).
    destruct (rounded_quotient eps (value (MAXampl params)) c2 _ _ e2
                Heps He2 Hmax HA HB2) as (HT2 & _ & Hlow2).
    cbv zeta in HT1, HT2, Hup1, Hlow2.
    unfold naka_rushton_rounded. cbv zeta. fold t.
    set (T1 := _ / _ * (1 + err_divide e1)) in *.
    set (T2 := _ / _ * (1 + err_divide e2)) in *.
    set (Q1 := _ / _) in Hup1, Hmono.
    set (Q2 := _ / _) in Hlow2, Hmono.
    set (b := value (baseline params)) in *.
    destruct He1 as (_ & _ & _ & _ & _ & _ & E1).
    destruct He2 as (_ & _ & _ & _ & _ & _ & E2).
    apply Rabs_le_bounds in E1, E2.
    set (lo := 1 - eps) in *. set (hi := 1 + eps) in *.
    assert (Hlo : 0 < lo) by (unfold lo; lra).
    assert (Hlo1 : lo <= 1) by (unfold lo; lra).
    assert (Hhi : 1 <= hi) by (unfold hi; lra).
    assert (Hlh : lo <= hi) by lra.
    assert (Hlo2 : 0 < lo ^ 2) by (apply pow_lt; exact Hlo).
    assert (Hlo3 : 0 < lo ^ 3) by (apply pow_lt; exact Hlo).
    assert (Hlo5 : 0 < lo ^ 5) by (apply pow_lt; exact Hlo).
    assert (Hhi2 : 0 < hi ^ 2) by (apply pow_lt; lra).
    assert (Hhi3 : 0 < hi ^ 3) by (apply pow_lt; lra).
    assert (Hhi5 : 0 < hi ^ 5) by (apply pow_lt; lra).
    assert (H15 : lo ^ 5 <= 1).
    { rewrite <- (pow1 5). apply pow_incr. lra. }
    assert (H51 : 1 <= hi ^ 5) by (apply pow_R1_Rle; exact Hhi).
    (* the quotients *)
    assert (HT : lo ^ 5 * T1 <= hi ^ 5 * T2).
    { apply Rle_trans with (lo ^ 3 * (hi ^ 3 * Q1)).
      - replace (lo ^ 5 * T1) with (lo ^ 3 * (lo ^ 2 * T1)) by ring.
        apply Rmult_le_compat_l; lra.
      - apply Rle_trans with (hi ^ 3 * (lo ^ 3 * Q2)).
        + replace (lo ^ 3 * (hi ^ 3 * Q1)) with (hi ^ 3 * (lo ^ 3 * Q1)) by ring.
          apply Rmult_le_compat_l; [lra |].
          apply Rmult_le_compat_l; lra.
        + replace (hi ^ 5 * T2) with (hi ^ 3 * (hi ^ 2 * T2)) by ring.
          apply Rmult_le_compat_l; lra. }
    assert (Hb : lo ^ 5 * b <= hi ^ 5 * b).
    { apply Rmult_le_compat_r; lra. }
    assert (Hsum1 : 0 <= T1 + b) by lra.
    assert (Hsum2 : 0 <= T2 + b) by lra.
    apply Rle_trans with (lo ^ 6 * ((T1 + b) * hi)).
    { apply Rmult_le_compat_l; [left; apply pow_lt; exact Hlo |].
      apply Rmult_le_compat_l; [exact Hsum1 | unfold hi; lra]. }
    apply Rle_trans with (hi ^ 6 * ((T2 + b) * lo)).
    { replace (lo ^ 6 * ((T1 + b) * hi)) with (lo * hi * (lo ^ 5 * T1 + lo ^ 5 * b))
        by ring.
      replace (hi ^ 6 * ((T2 + b) * lo)) with (lo * hi * (hi ^ 5 * T2 + hi ^ 5 * b))
        by ring.
      apply Rmult_le_compat_l; [| lra].
      apply Rmult_le_pos; lra. }
    apply Rmult_le_compat_l; [left; apply pow_lt; lra |].
    apply Rmult_le_compat_l; [exact Hsum2 | unfold lo; lra].
Qed.

(** Rounding errors of at most 2^-52, here one in the square at the
    first contrast and one in the division at the second. *)
Lemma naka_rushton_monotone_witness :
  (1 - / 2 ^ 52) ^ 6
  * naka_rushton_rounded (params_of (3 / 10) 10 1 1) (1 / 10)
      (mkErrors (/ 2 ^ 52) 0 0 0 0 0 0)
  <= (1 + / 2 ^ 52) ^ 6
     * naka_rushton_rounded (params_of (3 / 10) 10 1 1) (2 / 10)
         (mkErrors 0 0 0 0 0 (- / 2 ^ 52) 0).
Proof.
  assert (Heps : 0 < / 2 ^ 52 < 1).
  { split; [apply Rinv_0_lt_compat, pow_lt; lra |].
    rewrite <- Rinv_1. apply Rinv_lt_contravar.
    - rewrite Rmult_1_l. apply pow_lt; lra.
    - apply Rlt_pow_R1; [lra | lia]. }
  assert (Hzero : Rabs 0 <= / 2 ^ 52) by (rewrite Rabs_R0; lra).
  apply (naka_rushton_monotone (params_of (3 / 10) 10 1 1) (1 / 10) (2 / 10)
           (/ 2 ^ 52)).
  - cbn [params_of value semisaturation]. lra.
  - cbn [params_of value Saturation]. lra.
  - cbn [params_of value MAXampl]. lra.
  - cbn [params_of value baseline]. lra.
  - lra.
  - lra.
  - unfold errors_within.
    cbn [err_square err_times err_pow_semisat err_pow_contrast err_plus
         err_divide err_base].
    repeat split; try exact Hzero. rewrite Rabs_pos_eq; lra.
  - unfold errors_within.
    cbn [err_square err_times err_pow_semisat err_pow_contrast err_plus
         err_divide err_base].
    repeat split; try exact Hzero. rewrite Rabs_Ropp, Rabs_pos_eq; lra.
Defined.

End ModelFacts.

Section ZeroContrast.

Import ModelFitting.
Local Open Scope R_scope.

(** The laws of binary64 arithmetic used here: 0 is a binary64 number,
    a power that is a number is a binary64 number, and a positive power
    of 0 is 0. *)
Variable rnd : R -> float.
Variable pw : R -> R -> float.
Hypothesis rnd_zero : representable rnd 0.
Hypothesis pw_representable : forall x y a, pw x y = Some a -> representable rnd a.
Hypothesis pw_zero : forall y, 0 < y -> pw 0 y = Some 0.

(** At contrast 0 the numerator is 0 and the denominator is the power
    of the semisaturation alone. *)
Lemma naka_rushton_binary64_zero (params : lmfit_Parameters) (a : R) :
  0 < value (Saturation params) ->
  representable rnd (2 * value (Saturation params)) ->
  pw (value (semisaturation params)) (2 * value (Saturation params)) = Some a ->
  naka_rushton_binary64 rnd pw params 0 =
  radd rnd (rdiv rnd (Some 0) (Some a)) (Some (value (baseline params))).
Proof.
  intros Hs H2s Ha. pose proof (pw_representable _ _ _ Ha) as Hfa.
  unfold representable in *.
  unfold naka_rushton_binary64, fin. cbv zeta.
  unfold rmul, rounded. rewrite Rmult_0_l, rnd_zero, Rmult_0_r, rnd_zero, H2s.
  unfold rpow. rewrite Ha, pw_zero by lra.
  unfold radd at 2. unfold rounded. rewrite Rplus_0_r, Hfa. reflexivity.
Qed.

(** C6, amended: for binary64 parameter values with a positive
    semisaturation and a positive saturation exponent, the model at
    contrast 0 returns exactly the baseline whenever the power
    [semisat ** (2 * s)] it computes is a number other than 0; when
    that power underflows to 0 the model evaluates 0/0 and returns no
    number. *)
Theorem naka_rushton_at_zero (params : lmfit_Parameters) (a : R) :
  0 < value (semisaturation params) ->
  0 < value (Saturation params) ->
  representable rnd (2 * value (Saturation params)) ->
  representable rnd (value (baseline params)) ->
  pw (value (semisaturation params)) (2 * value (Saturation params)) = Some a ->
  (a <> 0 -> naka_rushton_binary64 rnd pw params 0 = Some (value (baseline params)))
  /\ (a = 0 -> naka_rushton_binary64 rnd pw params 0 = None).
Proof.
  intros _ Hs H2s Hb Ha.
  rewrite (naka_rushton_binary64_zero params a Hs H2s Ha).
  unfold representable in *.
  split; intros Hz.
  - unfold rdiv. destruct (Req_dec_T a 0) as [H | _]; [contradiction |].
    unfold Rdiv. rewrite Rmult_0_l, rnd_zero.
    unfold radd, rounded. rewrite Rplus_0_l. exact Hb.
  - subst a. unfold rdiv.
    destruct (Req_dec_T 0 0) as [_ | H]; [reflexivity | lra].
Qed.

End ZeroContrast.

Section ZeroContrastExamples.

Import ModelFitting.
Local Open Scope R_scope.

Lemma below_smallest_half : (/ 10 ^ 170) ^ 2 <= smallest_half.
Proof.
  unfold smallest_half. rewrite pow_inv, <- pow_mult.
  apply Rinv_le_contravar; [apply pow_lt; lra |].
  change 2 with (IZR 2). change 10 with (IZR 10).
  rewrite !pow_IZR. apply IZR_le. vm_compute. discriminate.
Qed.

Lemma rnd_underflow_keeps (x : R) : 1 <= x -> rnd_underflow x = Some x.
Proof.
  intros Hx. unfold rnd_underflow.
  destruct (Rle_dec (Rabs x) smallest_half) as [H | _]; [| reflexivity].
  exfalso. rewrite Rabs_pos_eq in H by lra.
  assert (smallest_half < 1).
  { unfold smallest_half. rewrite <- Rinv_1. apply Rinv_lt_contravar.
    - rewrite Rmult_1_l. apply pow_lt; lra.
    - apply Rlt_pow_R1; [lra | lia]. }
  lra.
Qed.

Lemma rnd_underflow_zero : rnd_underflow 0 = Some 0.
Proof.
  unfold rnd_underflow. destruct (Rle_dec (Rabs 0) smallest_half); reflexivity.
Qed.

Lemma rnd_underflow_representable (x a : R) :
  rnd_underflow x = Some a -> representable rnd_underflow a.
Proof.
  unfold representable, rnd_underflow.
  destruct (Rle_dec (Rabs x) smallest_half) as [_ | Hx]; intros H; injection H as <-.
  - destruct (Rle_dec (Rabs 0) smallest_half); reflexivity.
  - destruct (Rle_dec (Rabs x) smallest_half); [contradiction | reflexivity].
Qed.

Lemma pw_underflow_representable (x y a : R) :
  pw_underflow x y = Some a -> representable rnd_underflow a.
Proof.
  unfold pw_underflow. destruct (float_pow x y) as [v |]; [| discriminate].
  apply rnd_underflow_representable.
Qed.

Lemma pw_underflow_zero (y : R) : 0 < y -> pw_underflow 0 y = Some 0.
Proof.
  intros Hy. unfold pw_underflow. rewrite float_pow_zero by exact Hy.
  exact rnd_underflow_zero.
Qed.

(** C6, as it stands, fails: the square of the semisaturation 1e-170,
    which is positive and inside the bounds, underflows to 0, and with
    saturation exponent 1 the model at contrast 0 is 0/0, no number, not
    the baseline. *)
Lemma naka_rushton_underflow :
  let params := params_of (/ 10 ^ 170) 1 1 1 in
  0 < value (semisaturation params) /\ 0 < value (Saturation params)
  /\ pw_underflow (value (semisaturation params)) (2 * value (Saturation params))
     = Some 0
  /\ naka_rushton_binary64 rnd_underflow pw_underflow params 0 = None
  /\ naka_rushton_binary64 rnd_underflow pw_underflow params 0
     <> Some (value (baseline params)).
Proof.
  cbv zeta. cbn [params_of value semisaturation Saturation baseline].
  assert (Hsemi : 0 < / 10 ^ 170) by (apply Rinv_0_lt_compat, pow_lt; lra).
  assert (Hpw : pw_underflow (/ 10 ^ 170) (2 * 1) = Some 0).
  { unfold pw_underflow. rewrite float_pow_pos by exact Hsemi.
    replace (2 * 1) with 2 by lra. rewrite Rpower_two by exact Hsemi.
    unfold rnd_underflow.
    destruct (Rle_dec (Rabs ((/ 10 ^ 170) ^ 2)) smallest_half) as [_ | H];
      [reflexivity |].
    exfalso. apply H. rewrite Rabs_pos_eq by (apply pow_le; lra).
    exact below_smallest_half. }
  assert (Hnone : naka_rushton_binary64 rnd_underflow pw_underflow
                    (params_of (/ 10 ^ 170) 1 1 1) 0 = None).
  { rewrite (naka_rushton_binary64_zero rnd_underflow pw_underflow
               rnd_underflow_zero pw_underflow_representable pw_underflow_zero)
      with (a := 0).
    - unfold rdiv. destruct (Req_dec_T 0 0) as [_ | H]; [reflexivity | lra].
    - cbn. lra.
    - cbn [params_of value Saturation]. apply rnd_underflow_keeps. lra.
    - exact Hpw. }
  split; [exact Hsemi |]. split; [lra |]. split; [exact Hpw |].
  split; [exact Hnone |]. rewrite Hnone. discriminate.
Qed.

Lemma naka_rushton_at_zero_witness :
  naka_rushton_binary64 rnd_exact pw_exact (params_of (3 / 10) 10 1 1) 0 = Some 1.
Proof.
  apply (naka_rushton_at_zero rnd_exact pw_exact eq_refl
           (fun x y a _ => eq_refl) float_pow_zero
           (params_of (3 / 10) 10 1 1) (Rpower (3 / 10) (2 * 1))).
  - cbn [params_of value semisaturation]. lra.
  - cbn [params_of value Saturation]. lra.
  - reflexivity.
  - reflexivity.
  - apply float_pow_pos. cbn [params_of value semisaturation]. lra.
  - pose proof (Rpower_positive (3 / 10) (2 * 1)). lra.
Defined.

End ZeroContrastExamples.


Section GoodnessFacts.

Import ModelFitting.
Local Open Scope R_scope.




End GoodnessFacts.

Section GoodnessBinary64.

Import ModelFitting.
Local Open Scope R_scope.

Lemma rdiv_exact (x y : R) :
  y <> 0 -> rdiv (fun v => Some v) (Some x) (Some y) = Some (x / y).
Proof.
  intros Hy. unfold rdiv. destruct (Req_dec_T y 0); [contradiction | reflexivity].
Qed.

(** In exact arithmetic: responses 0 and 2 with residuals 2 and 2. *)
Lemma rsq_binary64_negative : rsq_binary64 rnd_exact pw_exact [0; 2] [2; 2] = Some (-3).
Proof.
  cbv beta iota delta [rsq_binary64 rss_binary64 tss_binary64 mean_binary64 np_sum fin map fold_left
                       List.length radd rmul rsub rpow rounded pw_exact rnd_exact].
  rewrite rdiv_exact by (simpl; lra). cbv beta iota zeta.
  rewrite !float_pow_square. cbv beta iota.
  rewrite rdiv_exact by (simpl; lra).
  f_equal. simpl. field.
Qed.

(** In exact arithmetic: responses 0 and 2 with residuals 1 and 1. *)
Lemma rsq_binary64_zero : rsq_binary64 rnd_exact pw_exact [0; 2] [1; 1] = Some 0.
Proof.
  cbv beta iota delta [rsq_binary64 rss_binary64 tss_binary64 mean_binary64 np_sum fin map fold_left
                       List.length radd rmul rsub rpow rounded pw_exact rnd_exact].
  rewrite rdiv_exact by (simpl; lra). cbv beta iota zeta.
  rewrite !float_pow_square. cbv beta iota.
  rewrite rdiv_exact by (simpl; lra).
  f_equal. simpl. field.
Qed.


(** The laws of binary64 arithmetic used here: 0 and 1 are binary64
    numbers, rounding keeps the order, and a square is not negative. *)
Variable rnd : R -> float.
Variable pw : R -> R -> float.
Hypothesis rnd_zero : representable rnd 0.
Hypothesis rnd_one : representable rnd 1.
Hypothesis rnd_monotone :
  forall x y a b, x <= y -> rnd x = Some a -> rnd y = Some b -> a <= b.
Hypothesis pw_square :
  forall x a, pw x 2 = Some a -> 0 <= a.

Lemma rnd_nonneg (x a : R) : 0 <= x -> rnd x = Some a -> 0 <= a.
Proof. intros Hx Ha. exact (rnd_monotone 0 x 0 a Hx rnd_zero Ha). Qed.

Lemma fold_radd_none (xs : list float) : fold_left (radd rnd) xs None = None.
Proof. induction xs as [| x xs IH]; [reflexivity | exact IH]. Qed.

(** A sum of numbers that are not negative is not negative. *)
Lemma fold_radd_nonneg (xs : list float) : forall a t,
  Forall (fun x => forall v, x = Some v -> 0 <= v) xs ->
  0 <= a ->
  fold_left (radd rnd) xs (Some a) = Some t -> 0 <= t.
Proof.
  induction xs as [| x xs IH]; intros a t Hall Ha H; cbn [fold_left] in H.
  - injection H as <-. exact Ha.
  - inversion Hall as [| ? ? Hx Hrest]; subst.
    destruct x as [v |]; cbn [radd rounded] in H.
    + destruct (rnd (a + v)) as [a' |] eqn:Hr.
      * apply (IH a' t Hrest); [| exact H].
        apply (rnd_nonneg (a + v)); [| exact Hr].
        specialize (Hx v eq_refl). lra.
      * rewrite fold_radd_none in H. discriminate.
    + rewrite fold_radd_none in H. discriminate.
Qed.




Lemma tss_binary64_nonneg (data : list R) (y : R) :
  tss_binary64 rnd pw data = Some y -> 0 <= y.
Proof.
  unfold tss_binary64, fin. cbv zeta. apply fold_radd_nonneg; [| lra].
  apply Forall_forall. intros f Hf. apply in_map_iff in Hf.
  destruct Hf as [d [<- _]]. intros v Hv.
  destruct (rsub rnd (Some d) (mean_binary64 rnd data)) as [z |];
    cbn [rpow] in Hv; [| discriminate].
  apply (pw_square z). exact Hv.
Qed.


(** X21: for the same responses a smaller computed RSS never gives a
    smaller R²: rounding keeps the order of the quotients [RSS / TSS]
    and of the differences from 1. *)
Theorem rsq_binary64_order (data residuals worse : list R) (x1 x2 r1 r2 : R) :
  rss_binary64 rnd residuals = Some x1 ->
  rss_binary64 rnd worse = Some x2 ->
  x1 <= x2 ->
  rsq_binary64 rnd pw data residuals = Some r1 ->
  rsq_binary64 rnd pw data worse = Some r2 ->
  r2 <= r1.
Proof.
  intros Hx1 Hx2 Hle Hr1 Hr2. unfold rsq_binary64, fin in Hr1, Hr2.
  rewrite Hx1 in Hr1. rewrite Hx2 in Hr2.
  destruct (tss_binary64 rnd pw data) as [y |] eqn:Hy; [| discriminate Hr1].
  cbn [rdiv] in Hr1, Hr2.
  destruct (Req_dec_T y 0) as [Hy0 | Hy0]; [discriminate Hr1 |].
  destruct (rnd (x1 / y)) as [q1 |] eqn:Hq1; [| discriminate Hr1].
  destruct (rnd (x2 / y)) as [q2 |] eqn:Hq2; [| discriminate Hr2].
  cbn [rsub rounded] in Hr1, Hr2.
  pose proof (tss_binary64_nonneg _ _ Hy) as Hypos.
  assert (Hquot : x1 / y <= x2 / y).
  { unfold Rdiv. apply Rmult_le_compat_r; [| exact Hle].
    left. apply Rinv_0_lt_compat. lra. }
  pose proof (rnd_monotone _ _ _ _ Hquot Hq1 Hq2) as Hq.
  apply (rnd_monotone (1 - q2) (1 - q1) r2 r1); [lra | exact Hr2 | exact Hr1].
Qed.

End GoodnessBinary64.

Section GoodnessExamples.

Import ModelFitting.
Local Open Scope R_scope.


Lemma rsq_binary64_order_witness :
  rsq_binary64 rnd_exact pw_exact [0; 2] [1; 1] = Some 0
  /\ rsq_binary64 rnd_exact pw_exact [0; 2] [2; 2] = Some (-3)
  /\ -3 <= 0.
Proof.
  assert (Hmono : forall x y a b : R,
             x <= y -> rnd_exact x = Some a -> rnd_exact y = Some b -> a <= b).
  { intros x y a b Hle Ha Hb. injection Ha as <-. injection Hb as <-. exact Hle. }
  assert (Hsq : forall x a : R, pw_exact x 2 = Some a -> 0 <= a).
  { intros x a Ha. unfold pw_exact in Ha. rewrite float_pow_square in Ha.
    injection Ha as <-. apply pow2_ge_0. }
  split; [exact rsq_binary64_zero |]. split; [exact rsq_binary64_negative |].
  apply (rsq_binary64_order rnd_exact pw_exact eq_refl Hmono Hsq
           [0; 2] [1; 1] [2; 2] (0 + 1 * 1 + 1 * 1) (0 + 2 * 2 + 2 * 2)).
  - reflexivity.
  - reflexivity.
  - lra.
  - exact rsq_binary64_zero.
  - exact rsq_binary64_negative.
Defined.

End GoodnessExamples.

Section PipelineFacts.

Import ModelFitting.
Local Open Scope string_scope.
Local Open Scope R_scope.

(** *** Arrays *)

Lemma all_finite_fin (xs : list R) : all_finite (map fin xs) = Some xs.
Proof.
  induction xs as [| x xs IH]; simpl; [reflexivity |]. rewrite IH. reflexivity.
Qed.


Lemma np_sub_same_length (a b : list float) :
  List.length a = List.length b ->
  np_sub a b =
  Returns (map (fun ab : float * float => fsub (fst ab) (snd ab)) (combine a b)).
Proof. intros H. unfold np_sub. rewrite H, Nat.eqb_refl. reflexivity. Qed.

Lemma sub_fin_arrays : forall data predicted : list R,
  map (fun ab : float * float => fsub (fst ab) (snd ab))
      (combine (map fin data) (map fin predicted))
  = map fin (map (fun op : R * R => fst op - snd op) (combine data predicted)).
Proof.
  induction data as [| d data IH]; intros [| p predicted]; simpl; try reflexivity.
  rewrite IH. reflexivity.
Qed.



Lemma naka_rushton_finite (params : lmfit_Parameters) (contrast : R) :
  0 < value (semisaturation params) -> 0 < value (Saturation params) ->
  0 <= contrast ->
  exists v, naka_rushton params contrast = Some v.
Proof.
  intros Hsemi Hs [Hc | <-].
  - eexists. apply naka_rushton_positive; assumption.
  - destruct (denominator_at_zero params Hsemi Hs) as (HA & HB & Hden).
    eexists. apply (naka_rushton_value params 0 _ 0 HA HB Hden).
Qed.

Lemma naka_rushton_array_finite (params : lmfit_Parameters) (contrast : list R) :
  0 < value (semisaturation params) -> 0 < value (Saturation params) ->
  Forall (fun c => 0 <= c) contrast ->
  exists predicted,
    naka_rushton_array params contrast = map fin predicted
    /\ List.length predicted = List.length contrast.
Proof.
  intros Hsemi Hs Hall. induction Hall as [| c contrast Hc _ IH].
  - exists []. split; reflexivity.
  - destruct IH as [predicted [IH Hlen]].
    destruct (naka_rushton_finite params c Hsemi Hs Hc) as [v Hv].
    exists (v :: predicted). simpl. rewrite Hv, IH, Hlen. split; reflexivity.
Qed.

(** *** The stand-in optimizer meets the contract of [lmfit.minimize] *)


Lemma clip_start_semisaturation :
  value (clip (mkParameter (3 / 10) (Some 0) (Some 50) true)) = 3 / 10.
Proof.
  unfold clip. cbn [value min max]. unfold Rmax, Rmin.
  destruct (Rle_dec (3 / 10) 50); destruct (Rle_dec _ 0); lra.
Qed.

Lemma clip_start_Saturation :
  value (clip (mkParameter 1 (Some 0) (Some 5) true)) = 1.
Proof.
  unfold clip. cbn [value min max]. unfold Rmax, Rmin.
  destruct (Rle_dec 1 5); destruct (Rle_dec _ 0); lra.
Qed.

Lemma params_add_semisaturation :
  params_add (3 / 10) (Some 0) (Some 50) = mkParameter (3 / 10) (Some 0) (Some 50) true.
Proof.
  unfold params_add. pose proof clip_start_semisaturation as H.
  unfold clip in *. cbn [value min max vary] in *. rewrite H. reflexivity.
Qed.

Lemma params_add_Saturation :
  params_add 1 (Some 0) (Some 5) = mkParameter 1 (Some 0) (Some 5) true.
Proof.
  unfold params_add. pose proof clip_start_Saturation as H.
  unfold clip in *. cbn [value min max vary] in *. rewrite H. reflexivity.
Qed.

Lemma params_add_lower (v : R) :
  params_add v (Some 0) None = mkParameter (Rmax v 0) (Some 0) None true.
Proof. reflexivity. Qed.

Lemma initialize_parameters_cons (d : R) (data : list R) (base : R) :
  initialize_parameters (d :: data) base =
  Returns (mkParameters (mkParameter (3 / 10) (Some 0) (Some 50) true)
                        (mkParameter (Rmax (fold_left Rmax data d) 0) (Some 0) None true)
                        (mkParameter 1 (Some 0) (Some 5) true)
                        (mkParameter (Rmax base 0) (Some 0) None true)).
Proof.
  unfold initialize_parameters. cbn [np_max bind].
  unfold INITIAL_PARAMS_semisaturation, INITIAL_PARAMS_Saturation,
    PARAM_CONSTRAINTS_semisaturation, PARAM_CONSTRAINTS_Saturation,
    PARAM_CONSTRAINTS_baseline.
  cbn [fst snd].
  rewrite params_add_semisaturation, params_add_Saturation, !params_add_lower.
  reflexivity.
Qed.

(** The parameters are set up with the configured bounds and with start
    values inside them. *)
Lemma initialize_parameters_bounds data base params :
  initialize_parameters data base = Returns params ->
  configured_bounds params
  /\ within_bounds params
  /\ value (semisaturation params) = 3 / 10
  /\ value (Saturation params) = 1.
Proof.
  destruct data as [| d data]; [discriminate |].
  rewrite initialize_parameters_cons. intros H. injection H as <-.
  unfold configured_bounds, within_bounds, within.
  cbn [semisaturation MAXampl Saturation baseline value min max].
  repeat split; try lra; apply Rmax_r.
Qed.

(** With the stand-ins the fit returns whenever there is at least one
    response, as many contrast levels as responses, and no negative
    contrast level. *)
Lemma fit_start_returns (subject_path subject data_file : string)
      (contrast : list R) (d : R) (data : list R) (base : R) :
  List.length contrast = List.length (d :: data) ->
  Forall (fun c => 0 <= c) contrast ->
  exists fit_results,
    fit minimize_start report_ok subject_path subject data_file
        contrast (d :: data) base = Returns fit_results.
Proof.
  intros Hlen Hall.
  unfold fit. rewrite initialize_parameters_cons. cbn [bind].
  unfold minimize_start at 1. cbv zeta.
  set (start := clip_parameters _).
  assert (Hsemi : 0 < value (semisaturation start)).
  { unfold start, clip_parameters. cbn [semisaturation].
    rewrite clip_start_semisaturation. lra. }
  assert (Hs : 0 < value (Saturation start)).
  { unfold start, clip_parameters. cbn [Saturation].
    rewrite clip_start_Saturation. lra. }
  destruct (naka_rushton_array_finite start contrast Hsemi Hs Hall)
    as [predicted [Hpred Hplen]].
  unfold residual at 1.
  rewrite Hpred, np_sub_same_length by (rewrite !length_map; lia).
  cbn [bind]. rewrite sub_fin_arrays, all_finite_fin.
  cbn [bind result_residual result_params].
  rewrite np_sub_same_length
    by (rewrite !length_map, length_combine, Hplen, Hlen; apply eq_sym, Nat.min_id).
  cbn [bind]. unfold goodness_of_fit, report_ok. cbn [bind].
  eexists. reflexivity.
Qed.

End PipelineFacts.

Section FitClaims.

Import ModelFitting.
Local Open Scope string_scope.
Local Open Scope R_scope.

(** The collaborators are arbitrary. *)
Variable minimize :
  objective -> lmfit_Parameters -> list R -> list R -> outcome MinimizerResult.
Variable read_csv : string -> outcome (list csv_row).
Variable render_report :
  string -> string -> string ->
  list R -> list R -> list float -> list float -> list R ->
  lmfit_Parameters -> float -> outcome unit.
Variable to_csv : string -> results_table -> outcome unit.

(** What [lmfit.minimize] promises: [result.residual] is the objective
    function at [result.params]. *)
Hypothesis minimize_residual :
  forall (f : objective) params contrast data result,
    minimize f params contrast data = Returns result ->
    f (result_params result) contrast data =
    Returns (map fin (result_residual result)).

(** What a returning fit went through. *)
Lemma fit_returns_inv subject_path subject data_file contrast data base fit_results :
  fit minimize render_report subject_path subject data_file contrast data base = Returns fit_results ->
  exists params result,
    initialize_parameters data base = Returns params
    /\ minimize residual params contrast data = Returns result
    /\ fit_results =
       [fin (value (semisaturation (result_params result)));
        fin (value (MAXampl (result_params result)));
        fin (value (Saturation (result_params result)));
        fin (value (baseline (result_params result)));
        rsq_of data (result_residual result)].
Proof.
  unfold fit. intros H.
  destruct (initialize_parameters data base) as [params | e] eqn:Hinit;
    [| discriminate H].
  cbn [bind] in H.
  destruct (minimize residual params contrast data) as [result | e] eqn:Hmin;
    [| discriminate H].
  cbn [bind] in H.
  destruct (np_sub _ _) as [final_fit | e]; [| discriminate H].
  cbn [bind] in H. unfold goodness_of_fit in H. cbv zeta in H.
  destruct (render_report _ _ _ _ _ _ _ _ _ _) as [[] | e]; [| discriminate H].
  cbn [bind] in H. injection H as <-.
  exists params, result. split; [reflexivity | split; [exact Hmin | reflexivity]].
Qed.


(** C3, amended: the fit does not check its input and knows no
    [InvalidInput]: it raises only when there is no response at all
    ([np.max] of an empty array) or when the optimizer, the array
    subtraction on its residual, or the report raises.
    [process_subject] always passes the five fixed positive contrast
    levels with five responses, and turns every exception into [None]. *)
Theorem fit_raises_only subject_path subject data_file
        (contrast data : list R) (base : R) (e : exception) :
  (fit minimize render_report subject_path subject data_file contrast data base = Raises e ->
     (data = [] /\ e = "ValueError")
     \/ exists params,
          initialize_parameters data base = Returns params
          /\ (minimize residual params contrast data = Raises e
              \/ exists result,
                   minimize residual params contrast data = Returns result
                   /\ (np_sub (map fin data) (map fin (result_residual result))
                         = Raises e
                       \/ exists final_fit fine_model rsq,
                            render_report subject_path subject data_file
                              contrast data final_fit fine_model
                              (result_residual result) (result_params result) rsq
                            = Raises e)))
  /\ (forall group subj file loaded,
        load_subject_data read_csv BASE_DIR group subj file = Returns loaded ->
        ~ invalid_input CONTRASTS (fst loaded))
  /\ (forall group subj file,
        process_subject minimize read_csv render_report group subj file = None <->
        exists e',
          (loaded <- load_subject_data read_csv BASE_DIR group subj file ;;
           fit minimize render_report (BASE_DIR ++ group ++ "/" ++ subj ++ "/") subj file
                CONTRASTS (fst loaded) (snd loaded)) = Raises e').
Proof.
  split; [| split].
  - unfold fit. intros H.
    destruct (initialize_parameters data base) as [params | e0] eqn:Hinit.
    + right. exists params. split; [reflexivity |]. cbn [bind] in H.
      destruct (minimize residual params contrast data) as [result | e1] eqn:Hmin;
        cbn [bind] in H;
        [| left; injection H as <-; first [reflexivity | assumption]].
      right. exists result. split; [reflexivity |].
      destruct (np_sub _ _) as [final_fit | e2];
        cbn [bind] in H;
        [| left; injection H as <-; first [reflexivity | assumption]].
      right. unfold goodness_of_fit in H. cbv zeta in H.
      do 3 eexists.
      destruct (render_report _ _ _ _ _ _ _ _ _ _) as [[] | e3] eqn:Hrep;
        cbn [bind] in H; [discriminate H |].
      injection H as <-. exact Hrep.
    + left. unfold initialize_parameters in Hinit.
      destruct data as [| d data]; [| discriminate Hinit].
      cbn [np_max bind] in Hinit. cbn [bind] in H.
      split; [reflexivity | congruence].
  - intros group subj file loaded Hload. unfold load_subject_data in Hload.
    destruct (read_csv _) as [df | e0]; [| discriminate Hload].
    cbn [bind] in Hload.
    destruct (filter _ df) as [| subject_data rest]; [discriminate Hload |].
    injection Hload as <-. cbn [fst]. unfold invalid_input, CONTRASTS.
    intros [Hlen | [Hex | Hfew]].
    + apply Hlen. reflexivity.
    + repeat match goal with
             | H : Exists _ (_ :: _) |- _ => apply Exists_cons in H; destruct H as [H | H]
             | H : Exists _ [] |- _ => inversion H
             end; lra.
    + simpl in Hfew. lia.
  - intros group subj file. unfold process_subject. cbv zeta.
    destruct (bind _ _) as [r | e0]; split.
    + discriminate.
    + intros [e' He']. discriminate He'.
    + intros _. exists e0. reflexivity.
    + reflexivity.
Qed.

(** C7, amended: when the subject lists are empty the batch run writes
    no results file at all, and it raises no error. *)
Theorem main_empty_subject_list (input_files : list string) :
  run_all minimize read_csv render_report [] [] input_files = []
  /\ main minimize read_csv render_report to_csv [] [] input_files = Returns [].
Proof.
  assert (Hnone : run_all minimize read_csv render_report [] [] input_files = []).
  { unfold run_all. cbn [flat_map fst snd app]. reflexivity. }
  split; [exact Hnone |].
  unfold main. rewrite Hnone. reflexivity.
Qed.

End FitClaims.

Section BoundsClaims.

Import ModelFitting.
Local Open Scope string_scope.
Local Open Scope R_scope.

(** The least-squares routine and the report are arbitrary. *)
Variable leastsq :
  (internal -> outcome (list float)) -> internal -> outcome internal.
Variable render_report :
  string -> string -> string ->
  list R -> list R -> list float -> list float -> list R ->
  lmfit_Parameters -> float -> outcome unit.

Lemma sqrt_above_one (x : R) : 1 <= sqrt (x * x + 1).
Proof.
  rewrite <- sqrt_1 at 1. apply sqrt_le_1_alt. nra.
Qed.

(** Whatever the internal variable, its image lies inside the closed
    bounds of the parameter. *)
Lemma set_internal_within (p : lmfit_Parameter) (x lo : R) (hi : option R) :
  min p = Some lo -> max p = hi ->
  match hi with Some h => lo <= h | None => True end ->
  within (set_internal p x).
Proof.
  intros Hmin Hmax Hle. unfold within, set_internal, from_internal.
  cbn [value min max]. rewrite Hmin, Hmax. destruct hi as [h |].
  - pose proof (SIN_bound x) as [Hlow Hup]. split; nra.
  - pose proof (sqrt_above_one x). split; [lra | exact I].
Qed.

Lemma with_internal_bounds (params : lmfit_Parameters) (x : internal) :
  configured_bounds params ->
  configured_bounds (with_internal params x) /\ within_bounds (with_internal params x).
Proof.
  intros (H1 & H2 & H3 & H4). destruct x as [[[x1 x2] x3] x4].
  injection H1 as H1a H1b. injection H2 as H2a H2b.
  injection H3 as H3a H3b. injection H4 as H4a H4b.
  split.
  - unfold configured_bounds, with_internal, set_internal.
    cbn [semisaturation MAXampl Saturation baseline min max].
    rewrite H1a, H1b, H2a, H2b, H3a, H3b, H4a, H4b. repeat split.
  - unfold within_bounds, with_internal.
    cbn [semisaturation MAXampl Saturation baseline].
    repeat split;
      first [ apply (set_internal_within _ _ 0 (Some 50)); [assumption | assumption | lra]
            | apply (set_internal_within _ _ 0 (Some 5)); [assumption | assumption | lra]
            | apply (set_internal_within _ _ 0 None); [assumption | assumption | exact I] ].
Qed.

(** The parameters [lmfit.minimize] reports are the images of the
    internal variables the least-squares routine stopped at. *)
Lemma minimize_lmfit_inv (fcn : objective) params contrast data result :
  minimize_lmfit leastsq fcn params contrast data = Returns result ->
  exists x, result_params result = with_internal params x.
Proof.
  unfold minimize_lmfit. cbv zeta.
  destruct (leastsq _ _) as [best | e]; cbn [bind]; [| discriminate].
  destruct (fcn (with_internal params best) contrast data) as [r | e];
    cbn [bind]; [| discriminate].
  destruct (all_finite r) as [res |]; [| discriminate].
  intros H. injection H as <-. exists best. reflexivity.
Qed.

(** C8, amended: the four parameters are set up with closed bounds:
    semisaturation in [0, 50], the saturation exponent in [0, 5], the
    maximum amplitude and the baseline in [0, inf).  The start values
    lie inside them, those of the semisaturation and of the saturation
    exponent being 0.3 and 1.0.  Whatever the least-squares routine
    does, every parameter set the objective function is evaluated at,
    and the fitted one, lies inside the same closed bounds.  The bounds
    keep the semisaturation and the saturation exponent non-negative,
    not strictly positive. *)
Theorem fit_keeps_closed_bounds subject_path subject data_file
        (contrast data : list R) (base : R) (fit_results : list float) :
  fit (minimize_lmfit leastsq) render_report subject_path subject data_file
      contrast data base = Returns fit_results ->
  (exists params,
     initialize_parameters data base = Returns params
     /\ configured_bounds params
     /\ within_bounds params
     /\ value (semisaturation params) = 3 / 10
     /\ value (Saturation params) = 1
     /\ forall x : internal, within_bounds (with_internal params x))
  /\ (exists semisat Rmax0 s b rsq,
        fit_results = [fin semisat; fin Rmax0; fin s; fin b; rsq]
        /\ 0 <= semisat <= 50 /\ 0 <= Rmax0 /\ 0 <= s <= 5 /\ 0 <= b).
Proof.
  intros H.
  destruct (fit_returns_inv _ _ _ _ _ _ _ _ _ H)
    as (params & result & Hinit & Hmin & ->).
  destruct (initialize_parameters_bounds _ _ _ Hinit) as (Hconf & Hin & Hv1 & Hv2).
  split.
  - exists params.
    split; [exact Hinit |]. split; [exact Hconf |]. split; [exact Hin |].
    split; [exact Hv1 |]. split; [exact Hv2 |].
    intros x. apply (with_internal_bounds params x Hconf).
  - destruct (minimize_lmfit_inv _ _ _ _ _ Hmin) as [x Hx].
    destruct (with_internal_bounds params x Hconf)
      as [(H1 & H2 & H3 & H4) (W1 & W2 & W3 & W4)].
    rewrite <- Hx in H1, H2, H3, H4, W1, W2, W3, W4.
    injection H1 as H1a H1b. injection H2 as H2a H2b.
    injection H3 as H3a H3b. injection H4 as H4a H4b.
    unfold within in W1, W2, W3, W4.
    rewrite H1a, H1b in W1. rewrite H2a in W2.
    rewrite H3a, H3b in W3. rewrite H4a in W4.
    do 5 eexists. split; [reflexivity |]. lra.
Qed.

End BoundsClaims.

Section FitExamples.

Import ModelFitting.
Local Open Scope string_scope.
Local Open Scope R_scope.

(** C3, as it stands, fails: with a contrast level of 0 among five
    levels and five responses the input is invalid in the sense of the
    specification, yet the fit goes through and returns its five
    numbers. *)
Lemma fit_accepts_zero_contrast :
  invalid_input contrasts_with_zero sample_responses
  /\ (exists fit_results,
        fit minimize_start report_ok BASE_DIR "Subject_1" "Appelbaum_Nmax_1"
            contrasts_with_zero sample_responses 1 = Returns fit_results)
  /\ fit minimize_start report_ok BASE_DIR "Subject_1" "Appelbaum_Nmax_1"
         contrasts_with_zero sample_responses 1 <> Raises "InvalidInput".
Proof.
  assert (Hfit : exists fit_results,
             fit minimize_start report_ok BASE_DIR "Subject_1" "Appelbaum_Nmax_1"
                 contrasts_with_zero sample_responses 1 = Returns fit_results).
  { apply fit_start_returns; [reflexivity |].
    unfold contrasts_with_zero. repeat constructor; lra. }
  split; [| split].
  - right. left. unfold contrasts_with_zero. apply Exists_cons_hd. lra.
  - exact Hfit.
  - destruct Hfit as [fit_results ->]. discriminate.
Qed.

Lemma fit_raises_only_witness :
  ((@nil R) = [] /\ "ValueError" = "ValueError")
  \/ exists params,
       initialize_parameters [] 1 = Returns params
       /\ (minimize_start residual params CONTRASTS [] = Raises "ValueError"
           \/ exists result,
                minimize_start residual params CONTRASTS [] = Returns result
                /\ (np_sub (map fin []) (map fin (result_residual result))
                      = Raises "ValueError"
                    \/ exists final_fit fine_model rsq,
                         report_ok BASE_DIR "Subject_1" "Appelbaum_Nmax_1"
                           CONTRASTS [] final_fit fine_model
                           (result_residual result) (result_params result) rsq
                         = Raises "ValueError")).
Proof.
  apply (fit_raises_only minimize_start one_subject_csv report_ok
           BASE_DIR "Subject_1" "Appelbaum_Nmax_1" CONTRASTS [] 1 "ValueError").
  reflexivity.
Defined.


(** C7, as it stands, fails: with empty subject lists no results file
    is written, not one with the column names and no rows. *)
Lemma main_empty_writes_no_table :
  main minimize_start one_subject_csv report_ok to_csv_ok [] [] INPUT_FILES
  <> Returns [(output_file, mkTable results_columns [])].
Proof. unfold main, run_all. simpl. discriminate. Qed.

(** The fit with a least-squares routine that stops at [x]: it returns
    the images of [x] whenever the model is finite for them. *)
Lemma fit_lmfit_at (x : internal) (subject_path subject data_file : string)
      (contrast : list R) (d : R) (data : list R) (base : R)
      (params : lmfit_Parameters) (predicted : list R) :
  initialize_parameters (d :: data) base = Returns params ->
  List.length contrast = List.length (d :: data) ->
  naka_rushton_array (with_internal params x) contrast = map fin predicted ->
  exists rsq,
    fit (minimize_lmfit (leastsq_at x)) report_ok subject_path subject data_file
        contrast (d :: data) base =
    Returns [fin (value (semisaturation (with_internal params x)));
             fin (value (MAXampl (with_internal params x)));
             fin (value (Saturation (with_internal params x)));
             fin (value (baseline (with_internal params x)));
             rsq].
Proof.
  intros Hinit Hlen Hpred.
  assert (Hplen : List.length predicted = List.length contrast).
  { apply (f_equal (@List.length float)) in Hpred.
    unfold naka_rushton_array in Hpred. rewrite !length_map in Hpred.
    symmetry. exact Hpred. }
  unfold fit. rewrite Hinit. cbn [bind].
  unfold minimize_lmfit, leastsq_at. cbv zeta. cbn [bind].
  unfold residual at 1.
  rewrite Hpred, np_sub_same_length by (rewrite !length_map; lia).
  cbn [bind]. rewrite sub_fin_arrays, all_finite_fin.
  cbn [bind result_residual result_params].
  rewrite np_sub_same_length
    by (rewrite !length_map, length_combine, Hplen, Hlen; apply eq_sym, Nat.min_id).
  cbn [bind]. unfold goodness_of_fit, report_ok. cbn [bind].
  eexists. reflexivity.
Qed.

(** With both bounds set, the internal variable [-pi/2] is mapped onto
    the lower bound. *)
Lemma from_internal_lower (p : lmfit_Parameter) (lo hi : R) :
  min p = Some lo -> max p = Some hi ->
  from_internal p (- (PI / 2)) = lo.
Proof.
  intros Hmin Hmax. unfold from_internal. rewrite Hmin, Hmax.
  rewrite sin_neg, sin_PI2. lra.
Qed.

(** The model is finite at a positive contrast when the semisaturation
    and the saturation exponent are both 0. *)
Lemma naka_rushton_all_zero (params : lmfit_Parameters) (contrast : R) :
  value (semisaturation params) = 0 -> value (Saturation params) = 0 ->
  0 < contrast ->
  exists v, naka_rushton params contrast = Some v.
Proof.
  intros Hsemi Hs Hc. eexists.
  apply (naka_rushton_value params contrast 1 (Rpower contrast (2 * 0))).
  - rewrite Hsemi, Hs. unfold float_pow.
    destruct (Rlt_dec 0 0) as [H | _]; [lra |].
    destruct (Req_dec_T 0 0) as [_ | H]; [| lra].
    destruct (Rlt_dec 0 (2 * 0)) as [H | _]; [lra |].
    destruct (Req_dec_T (2 * 0) 0) as [_ | H]; [reflexivity | lra].
  - rewrite Hs. apply float_pow_pos. exact Hc.
  - pose proof (Rpower_positive contrast (2 * 0)). lra.
Qed.

(** C8, as it stands, fails: the fit below stops at internal variables
    that [lmfit] maps onto the lower bounds, and it returns a
    semisaturation of 0 and a saturation exponent of 0: inside the
    bounds, but not strictly positive. *)
Lemma fit_reaches_zero :
  exists Rmax0 b rsq,
    fit (minimize_lmfit (leastsq_at (- (PI / 2), 0, - (PI / 2), 0))) report_ok
        BASE_DIR "Subject_1" "Appelbaum_Nmax_1" CONTRASTS sample_responses 1
    = Returns [fin 0; fin Rmax0; fin 0; fin b; rsq]
    /\ ~ 0 < 0.
Proof.
  set (x := (- (PI / 2), 0, - (PI / 2), 0)).
  pose proof (initialize_parameters_cons 1 [3; 6; 9; 10] 1) as Hinit.
  set (params := mkParameters _ _ _ _) in Hinit.
  assert (Hsemi : value (semisaturation (with_internal params x)) = 0).
  { apply (from_internal_lower _ 0 50); reflexivity. }
  assert (Hs : value (Saturation (with_internal params x)) = 0).
  { apply (from_internal_lower _ 0 5); reflexivity. }
  assert (Hpred : exists predicted,
             naka_rushton_array (with_internal params x) CONTRASTS = map fin predicted).
  { unfold CONTRASTS, naka_rushton_array. cbn [map].
    destruct (naka_rushton_all_zero _ (5 / 100) Hsemi Hs ltac:(lra)) as [v1 ->].
    destruct (naka_rushton_all_zero _ (1 / 10) Hsemi Hs ltac:(lra)) as [v2 ->].
    destruct (naka_rushton_all_zero _ (2 / 10) Hsemi Hs ltac:(lra)) as [v3 ->].
    destruct (naka_rushton_all_zero _ (4 / 10) Hsemi Hs ltac:(lra)) as [v4 ->].
    destruct (naka_rushton_all_zero _ (8 / 10) Hsemi Hs ltac:(lra)) as [v5 ->].
    exists [v1; v2; v3; v4; v5]. reflexivity. }
  destruct Hpred as [predicted Hpred].
  destruct (fit_lmfit_at x BASE_DIR "Subject_1" "Appelbaum_Nmax_1"
              CONTRASTS 1 [3; 6; 9; 10] 1 params predicted Hinit eq_refl Hpred)
    as [rsq Hfit].
  rewrite Hsemi, Hs in Hfit.
  do 3 eexists. split; [exact Hfit | lra].
Qed.

Lemma fit_keeps_closed_bounds_witness :
  exists fit_results semisat Rmax0 s b rsq,
    fit (minimize_lmfit (leastsq_at (0, 0, 0, 0))) report_ok
        BASE_DIR "Subject_1" "Appelbaum_Nmax_1"
        CONTRASTS sample_responses 1 = Returns fit_results
    /\ fit_results = [fin semisat; fin Rmax0; fin s; fin b; rsq]
    /\ 0 <= semisat <= 50 /\ 0 <= Rmax0 /\ 0 <= s <= 5 /\ 0 <= b.
Proof.
  set (x := (0, 0, 0, 0)).
  pose proof (initialize_parameters_cons 1 [3; 6; 9; 10] 1) as Hinit.
  set (params := mkParameters _ _ _ _) in Hinit.
  assert (Hsemi : 0 < value (semisaturation (with_internal params x))).
  { cbn. rewrite sin_0. lra. }
  assert (Hs : 0 < value (Saturation (with_internal params x))).
  { cbn. rewrite sin_0. lra. }
  destruct (naka_rushton_array_finite (with_internal params x) CONTRASTS Hsemi Hs)
    as [predicted [Hpred _]].
  { unfold CONTRASTS. repeat constructor; lra. }
  destruct (fit_lmfit_at x BASE_DIR "Subject_1" "Appelbaum_Nmax_1"
              CONTRASTS 1 [3; 6; 9; 10] 1 params predicted Hinit eq_refl Hpred)
    as [rsq Hfit].
  destruct (fit_keeps_closed_bounds (leastsq_at x) report_ok
              BASE_DIR "Subject_1" "Appelbaum_Nmax_1"
              CONTRASTS sample_responses 1 _ Hfit)
    as [_ (semisat & Rmax0 & s & b & rsq' & H1 & H2)].
  do 6 eexists. split; [exact Hfit |]. split; [exact H1 | exact H2].
Defined.

End FitExamples.

(* ====================================================================== *)
(** * Further properties of the reaction-time classification *)
(* ====================================================================== *)

Section ClassificationFacts.

Import ReactionTimes.
Local Open Scope string_scope.
Local Open Scope list_scope.
Local Open Scope Z_scope.

Lemma classify_trial_class_eq (bt : block_times) :
  fst (classify_trial bt) =
  match disappear_time bt, response_time bt with
  | None, _ => 3
  | Some _, None => 2
  | Some dt, Some rt =>
      if rt <=? dt + RESPONSE_WINDOW then 0
      else match late_time bt with
           | Some _ => 2
           | None => if rt - dt <? 10000 then 1 else 2
           end
  end.
Proof.
  unfold classify_trial, RESPONSE_WINDOW.
  destruct (disappear_time bt) as [dt |]; [| reflexivity].
  destruct (response_time bt) as [rt |]; [| destruct (late_time bt); reflexivity].
  destruct (Z.ltb_spec rt dt), (Z.leb_spec dt rt), (Z.leb_spec rt (dt + 1700)),
    (Z.ltb_spec (dt + 1700) rt); try lia; cbn [andb fst]; try reflexivity.
  destruct (late_time bt) as [lt |].
  - destruct (lt <? rt); reflexivity.
  - cbn [andb]. destruct (rt - dt <? 10000); reflexivity.
Qed.

(** X1: the decision table of one trial.  Class 3 means no
    ['disappear'] row; class 0 means a response no later than the end of
    the response window (early ones included); class 1 means a response
    behind the window, less than 10000 after the disappearance, in a
    block without a ['late'] row; everything else with a ['disappear']
    row is class 2. *)
Theorem classify_trial_table (bt : block_times) :
  (fst (classify_trial bt) = 3 <-> disappear_time bt = None)
  /\ (fst (classify_trial bt) = 0 <->
      exists dt rt, disappear_time bt = Some dt /\ response_time bt = Some rt
                    /\ rt <= dt + RESPONSE_WINDOW)
  /\ (fst (classify_trial bt) = 1 <->
      exists dt rt, disappear_time bt = Some dt /\ response_time bt = Some rt
                    /\ dt + RESPONSE_WINDOW < rt /\ late_time bt = None
                    /\ rt - dt < 10000)
  /\ (fst (classify_trial bt) = 2 <->
      exists dt, disappear_time bt = Some dt
                 /\ (response_time bt = None
                     \/ exists rt, response_time bt = Some rt
                                   /\ dt + RESPONSE_WINDOW < rt
                                   /\ (late_time bt <> None \/ 10000 <= rt - dt))).
Proof.
  rewrite classify_trial_class_eq. unfold RESPONSE_WINDOW.
  destruct (disappear_time bt) as [dt |], (response_time bt) as [rt |];
    try destruct (Z.leb_spec rt (dt + 1700));
    try destruct (late_time bt) as [lt |];
    try destruct (Z.ltb_spec (rt - dt) 10000);
    repeat split; intros Hyp;
    repeat match goal with
           | H : exists _, _ |- _ => destruct H as [? H]
           | H : _ /\ _ |- _ => destruct H as [? ?]
           | H : _ \/ _ |- _ => destruct H as [H | H]
           | H : Some _ = Some _ |- _ => injection H as <-
           end;
    try discriminate; try congruence; try lia;
    try (eexists; eexists; repeat split; (reflexivity || lia));
    try (eexists; split; [reflexivity |]; first
           [ left; reflexivity
           | right; eexists; repeat split; [lia | first [left; discriminate | right; lia]] ]).
Qed.

(** X2: the time difference that goes with a class: at most the
    response window for class 0, between the window and 10000 for
    class 1, NaN for class 3. *)
Theorem classify_trial_difference_range (bt : block_times) :
  (fst (classify_trial bt) = 0 ->
     exists diff, snd (classify_trial bt) = Some diff /\ diff <= RESPONSE_WINDOW)
  /\ (fst (classify_trial bt) = 1 ->
      exists diff, snd (classify_trial bt) = Some diff
                   /\ RESPONSE_WINDOW < diff < 10000)
  /\ (fst (classify_trial bt) = 3 -> snd (classify_trial bt) = None).
Proof.
  rewrite classify_trial_class_eq.
  destruct (disappear_time bt) as [dt |] eqn:Hd.
  - destruct (response_time bt) as [rt |] eqn:Hr.
    + rewrite (classify_trial_timed bt dt rt Hd Hr).
      destruct (Z.leb_spec rt (dt + RESPONSE_WINDOW)) as [Hin | Hout].
      * repeat split; try discriminate. intros _. exists (rt - dt).
        split; [reflexivity | lia].
      * destruct (late_time bt); [repeat split; discriminate |].
        destruct (Z.ltb_spec (rt - dt) 10000); repeat split; try discriminate.
        intros _. exists (rt - dt). split; [reflexivity | lia].
    + repeat split; discriminate.
  - repeat split; try discriminate. intros _.
    apply classify_trial_nan. right. exact Hd.
Qed.

Lemma collect_from_app bt rows more :
  collect_from bt (rows ++ more) = collect_from (collect_from bt rows) more.
Proof. unfold collect_from. apply fold_left_app. Qed.

Lemma collect_from_keeps rows : forall bt,
  (has_event "disappear" rows = false ->
     disappear_time (collect_from bt rows) = disappear_time bt)
  /\ (has_event "16" rows = false ->
      response_time (collect_from bt rows) = response_time bt)
  /\ (has_event "late" rows = false ->
      late_time (collect_from bt rows) = late_time bt).
Proof.
  induction rows as [| [label t] rows IH]; intros bt.
  - repeat split.
  - unfold collect_from in *. cbn [fold_left fst snd has_event existsb].
    destruct (IH (record_event bt label t)) as (IHd & IHr & IHl).
    unfold record_event in *.
    destruct (String.eqb_spec label "disappear") as [-> | Hnd].
    + cbn [orb]. repeat split; intros H; try discriminate H.
      * rewrite IHr by exact H. reflexivity.
      * rewrite IHl by exact H. reflexivity.
    + destruct (String.eqb_spec label "16") as [-> | Hnr].
      * cbn [orb]. repeat split; intros H; try discriminate H.
        -- rewrite IHd by exact H. reflexivity.
        -- rewrite IHl by exact H. reflexivity.
      * destruct (String.eqb_spec label "late") as [-> | Hnl].
        -- cbn [orb]. repeat split; intros H; try discriminate H.
           ++ rewrite IHd by exact H. reflexivity.
           ++ rewrite IHr by exact H. reflexivity.
        -- cbn [orb]. repeat split; intros H.
           ++ apply IHd, H. ++ apply IHr, H. ++ apply IHl, H.
Qed.

(** X3: of several ['disappear'], response or ['late'] rows in one
    block the last one counts. *)
Theorem last_event_wins (rows more : list entry) (t : Z) :
  (has_event "disappear" more = false ->
     disappear_time (collect (rows ++ ("disappear", t) :: more)) = Some t)
  /\ (has_event "16" more = false ->
      response_time (collect (rows ++ ("16", t) :: more)) = Some t)
  /\ (has_event "late" more = false ->
      late_time (collect (rows ++ ("late", t) :: more)) = Some t).
Proof.
  unfold collect.
  repeat split; intros H; rewrite collect_from_app;
    change (collect_from ?b (?r :: more)) with
      (collect_from (record_event b (fst r) (snd r)) more);
    [ rewrite (proj1 (collect_from_keeps more _) H)
    | rewrite (proj1 (proj2 (collect_from_keeps more _)) H)
    | rewrite (proj2 (proj2 (collect_from_keeps more _)) H) ];
    reflexivity.
Qed.

Lemma last_event_wins_witness :
  disappear_time (collect ([("gr_0", 0); ("disappear", 10)]
                             ++ ("disappear", 25) :: [("16", 30)])) = Some 25.
Proof.
  apply (last_event_wins [("gr_0", 0); ("disappear", 10)] [("16", 30)] 25).
  reflexivity.
Defined.

Lemma outputs_of_trials_app (a b : list (list entry)) :
  outputs_of_trials (a ++ b)%list
  = ((fst (outputs_of_trials a) ++ fst (outputs_of_trials b))%list,
     (snd (outputs_of_trials a) ++ snd (outputs_of_trials b))%list).
Proof. unfold outputs_of_trials. cbn [fst snd]. rewrite !map_app. reflexivity. Qed.

Lemma block_end_not_grating (label : string) :
  ends_block label = true -> is_grating label = false.
Proof.
  intros He. destruct (is_grating label) eqn:Hg; [| reflexivity].
  apply grating_not_block_end in Hg. congruence.
Qed.

Lemma take_block_app (label : string) (t : Z) (log2 : list entry) (n : nat) :
  ends_block label = true ->
  (forall l : list entry, (List.length l < n)%nat ->
     trial_rows (l ++ (label, t) :: log2) = trial_rows l ++ trial_rows log2) ->
  forall log1 seen : list entry, (List.length log1 <= n)%nat ->
    take_block trial_rows (log1 ++ (label, t) :: log2) seen
    = take_block trial_rows log1 seen ++ trial_rows log2.
Proof.
  intros He IH log1. induction log1 as [| [l0 t0] log1 IHlog]; intros seen Hlen.
  - cbn [app]. rewrite take_block_cons, He. reflexivity.
  - simpl in Hlen. cbn [app]. rewrite !take_block_cons.
    destruct (ends_block l0).
    + rewrite IH by lia. reflexivity.
    + apply IHlog. lia.
Qed.

Lemma trial_rows_app (label : string) (t : Z) (log1 log2 : list entry) :
  ends_block label = true ->
  trial_rows (log1 ++ (label, t) :: log2) = trial_rows log1 ++ trial_rows log2.
Proof.
  intros He.
  remember (List.length log1) as n eqn:Hn.
  assert (Hle : (List.length log1 <= n)%nat) by lia. clear Hn.
  revert log1 Hle. induction n as [| n IHn]; intros log1 Hle.
  - destruct log1; [| simpl in Hle; lia].
    cbn [app]. rewrite trial_rows_cons, (block_end_not_grating _ He). reflexivity.
  - destruct log1 as [| [l0 t0] log1].
    + cbn [app]. rewrite trial_rows_cons, (block_end_not_grating _ He). reflexivity.
    + simpl in Hle. cbn [app]. rewrite !trial_rows_cons.
      destruct (is_grating l0).
      * assert (IH' : forall l : list entry, (List.length l < S n)%nat ->
                   trial_rows (l ++ (label, t) :: log2)
                   = trial_rows l ++ trial_rows log2)
          by (intros l Hl; apply IHn; lia).
        apply (take_block_app label t log2 (S n) He IH' ((l0, t0) :: log1) []).
        simpl. exact Hle.
      * apply IHn. lia.
Qed.

(** X4: a ['fix'] / ['anim'] row cuts the log: both halves can be
    classified on their own and the results put one behind the other. *)
Theorem classify_responses_app (label : string) (t : Z) (log1 log2 : list entry) :
  ends_block label = true ->
  classify_responses (log1 ++ (label, t) :: log2)
  = (fst (classify_responses log1) ++ fst (classify_responses log2),
     snd (classify_responses log1) ++ snd (classify_responses log2)).
Proof.
  intros He. unfold classify_responses. rewrite !classify_loop_trials.
  rewrite (trial_rows_app label t log1 log2 He), outputs_of_trials_app.
  reflexivity.
Qed.

Lemma classify_responses_app_witness :
  classify_responses (early_log ++ ("fix", 400) :: on_time_log)
  = (fst (classify_responses early_log) ++ fst (classify_responses on_time_log),
     snd (classify_responses early_log) ++ snd (classify_responses on_time_log)).
Proof. apply (classify_responses_app "fix" 400 early_log on_time_log). reflexivity. Defined.

(** X5: rows before the first grating label (responses included) do
    not reach the output. *)
Theorem rows_before_first_grating_ignored (stray log : list entry) :
  Forall (fun row : entry => is_grating (fst row) = false) stray ->
  classify_responses (stray ++ log) = classify_responses log.
Proof.
  unfold classify_responses. intros Hall.
  induction Hall as [| [label t] stray Hrow _ IH]; [reflexivity |].
  cbn [app]. rewrite classify_loop_cons. cbn [fst] in Hrow. rewrite Hrow. exact IH.
Qed.

Lemma rows_before_first_grating_ignored_witness :
  classify_responses ([("16", 5); ("late", 7); ("disappear", 9)] ++ on_time_log)
  = classify_responses on_time_log.
Proof.
  apply (rows_before_first_grating_ignored
           [("16", 5); ("late", 7); ("disappear", 9)] on_time_log).
  repeat constructor.
Defined.

End ClassificationFacts.

(* ====================================================================== *)
(** * Properties of the reaction-time batch run *)
(* ====================================================================== *)

Section RunFacts.

Import ReactionTimes.
Import ModelFitting.
Import ReactionTimesRun.
Local Open Scope string_scope.
Local Open Scope list_scope.
Local Open Scope Z_scope.

Variable path_to_original_data : outcome string.
Variable path_exists : string -> bool.
Variable read_log : string -> outcome (list entry).
Variable read_drop_log : string -> outcome (list (list string)).
Variable rows_to_csv : string -> list subject_row -> outcome unit.

Lemma Returns_inj {A : Type} (a b : A) : Returns a = Returns b -> a = b.
Proof. intros H. injection H as H. exact H. Qed.

Lemma str_in_filter (labels codes : list string) (c : string) :
  str_in c (filter (fun e => str_in e labels) codes)
  = str_in c labels && str_in c codes.
Proof.
  apply eq_true_iff_eq. unfold str_in.
  rewrite andb_true_iff, !existsb_exists. split.
  - intros [x [Hin Heq]]. apply filter_In in Hin. destruct Hin as [Hin Hl].
    apply String.eqb_eq in Heq. subst x. apply existsb_exists in Hl.
    split; [exact Hl |]. exists c. split; [exact Hin | apply String.eqb_refl].
  - intros [Hl [x [Hin Heq]]]. apply String.eqb_eq in Heq. subst x.
    exists c. split; [| apply String.eqb_refl].
    apply filter_In. split; [exact Hin |]. apply existsb_exists. exact Hl.
Qed.

Lemma str_in_fst (row : entry) (log : list entry) :
  In row log -> str_in (fst row) (map fst log) = true.
Proof.
  intros Hin. unfold str_in. apply existsb_exists. exists (fst row).
  split; [apply in_map; exact Hin | apply String.eqb_refl].
Qed.

Lemma map_fst_filter (p : string -> bool) (log : list entry) :
  map fst (filter (fun row : entry => p (fst row)) log) = filter p (map fst log).
Proof.
  induction log as [| row log IH]; cbn [filter map]; [reflexivity |].
  destruct (p (fst row)); cbn [map]; rewrite IH; reflexivity.
Qed.

(** The rows of a log whose code is one of the five grating labels. *)
Lemma event_rows_filter (log : list entry) :
  filter (fun row : entry =>
            str_in (fst row) (filter (fun e => str_in e GRATING_LABELS) (map fst log)))
         log
  = filter (fun row : entry => str_in (fst row) GRATING_LABELS) log.
Proof.
  apply filter_ext_in. intros row Hin.
  rewrite str_in_filter, (str_in_fst row log Hin). apply andb_true_r.
Qed.

Lemma process_subject_log_inv (subject : string) (result : list pyval) :
  process_subject_log path_to_original_data path_exists read_log subject
    = Returns result ->
  (result = [PyNone; PyNone; PyNone; PyNone]
   /\ (str_in subject ["S016"; "S222"] = true
       \/ exists log_path, path_exists log_path = false))
  \/ (str_in subject ["S016"; "S222"] = false
      /\ exists log_path log_data,
           path_exists log_path = true
           /\ read_log log_path = Returns log_data
           /\ let gratings :=
                filter (fun row : entry => str_in (fst row) GRATING_LABELS) log_data in
              let kept := if String.eqb subject "" then skipn 5 gratings
                          else gratings in
              result = [PyCodes (map fst kept); PyTimes (map snd kept);
                        PyLog log_data]).
Proof.
  unfold process_subject_log. intros H.
  match type of H with
  | bind ?c _ = _ => destruct c as [log_path | e] eqn:Hpath
  end; [| discriminate H].
  cbn [bind] in H.
  destruct (path_exists log_path) eqn:Hex; cbn [negb orb] in H.
  - destruct (str_in subject ["S016"; "S222"]) eqn:Hskip.
    + left. injection H as <-. split; [reflexivity | left; reflexivity].
    + right. split; [reflexivity |].
      destruct (read_log log_path) as [log_data | e] eqn:Hread; [| discriminate H].
      cbn [bind] in H. cbv zeta in H. apply Returns_inj in H. subst result.
      exists log_path, log_data. split; [exact Hex |]. split; [exact Hread |].
      cbv zeta. rewrite event_rows_filter.
      rewrite <- (map_fst_filter (fun e => str_in e GRATING_LABELS) log_data).
      destruct (String.eqb subject ""); [rewrite <- !skipn_map |]; reflexivity.
  - left. injection H as <-. split; [reflexivity |]. right.
    exists log_path. exact Hex.
Qed.


Lemma in_skipn_in {A : Type} (n : nat) (l : list A) (x : A) :
  In x (skipn n l) -> In x l.
Proof.
  intros H. rewrite <- (firstn_skipn n l). apply in_or_app. right. exact H.
Qed.

Lemma combine_fst_snd (rows : list entry) :
  combine (map fst rows) (map snd rows) = rows.
Proof.
  induction rows as [| [c t] rows IH]; cbn [map combine fst snd];
    [reflexivity | rewrite IH; reflexivity].
Qed.

Lemma collect_rows_inv (subjects : list string) : forall rows,
  collect_rows path_to_original_data path_exists read_log read_drop_log subjects
    = Returns rows ->
  Forall2 (row_of path_exists read_log read_drop_log) subjects rows.
Proof.
  induction subjects as [| subject rest IH]; intros rows H.
  - cbn [collect_rows] in H. apply Returns_inj in H. subst rows. constructor.
  - cbn [collect_rows] in H.
    destruct (process_subject_log path_to_original_data path_exists read_log subject)
      as [result | e] eqn:Hlog; [| discriminate H].
    cbn [bind] in H.
    destruct (process_subject_log_inv subject result Hlog)
      as [[-> _] | (Hskip & log_path & log_data & Hex & Hread & Hres)].
    + discriminate H.
    + cbv zeta in Hres. subst result. cbv iota beta in H.
      destruct (read_drop_log (epoch_path subject)) as [drop_log | e] eqn:Hdrop;
        [| discriminate H].
      cbn [bind] in H. cbv zeta in H.
      destruct (classify_responses log_data) as [response_types time_differences]
        eqn:Hclass.
      destruct (String.get 1 subject) as [second |] eqn:Hget; [| discriminate H].
      destruct (collect_rows path_to_original_data path_exists read_log
                             read_drop_log rest) as [others | e] eqn:Hrest;
        [| discriminate H].
      cbn [bind] in H. apply Returns_inj in H. subst rows.
      constructor; [| apply IH; reflexivity].
      unfold row_of. cbn [row_subject row_group row_events row_times
                          row_response_types row_time_differences
                          row_valid_indices].
      split; [reflexivity |]. split; [exact Hskip |]. split; [| split].
      * exists log_path, log_data. rewrite Hclass. cbn [fst snd].
        repeat split; assumption || reflexivity.
      * exists drop_log. split; [exact Hdrop | reflexivity].
      * exists second. split; [exact Hget | reflexivity].
Qed.


(** X6: [process_subject_log] returns either four [None]s or the
    grating labels, their times and the log; labels and times have the
    same length, every label is one of the five grating labels, and
    together they are the grating rows of the log in order (without the
    first five for the subject with the empty name). *)
Theorem process_subject_log_tuple (subject : string) (result : list pyval) :
  process_subject_log path_to_original_data path_exists read_log subject
    = Returns result ->
  result = [PyNone; PyNone; PyNone; PyNone]
  \/ exists codes times log_data,
       result = [PyCodes codes; PyTimes times; PyLog log_data]
       /\ List.length codes = List.length times
       /\ Forall (fun c => In c GRATING_LABELS) codes
       /\ combine codes times
          = (if String.eqb subject "" then skipn 5 else fun rows => rows)
              (filter (fun row : entry => str_in (fst row) GRATING_LABELS) log_data).
Proof.
  intros H.
  destruct (process_subject_log_inv subject result H)
    as [[-> _] | (_ & log_path & log_data & _ & _ & Hres)]; [left; reflexivity |].
  right. cbv zeta in Hres.
  set (kept := if String.eqb subject "" then skipn 5 _ else _) in Hres.
  exists (map fst kept), (map snd kept), log_data.
  split; [exact Hres |]. split; [rewrite !length_map; reflexivity |]. split.
  - apply Forall_forall. intros c Hc. apply in_map_iff in Hc.
    destruct Hc as [row [<- Hrow]].
    assert (Hin : In row (filter (fun r : entry => str_in (fst r) GRATING_LABELS)
                                 log_data)).
    { unfold kept in Hrow. destruct (String.eqb subject "");
        [eapply in_skipn_in; exact Hrow | exact Hrow]. }
    apply filter_In in Hin. destruct Hin as [_ Hl].
    unfold str_in in Hl. apply existsb_exists in Hl. destruct Hl as [x [Hx Heq]].
    apply String.eqb_eq in Heq. rewrite Heq. exact Hx.
  - rewrite combine_fst_snd. unfold kept.
    destruct (String.eqb subject ""); reflexivity.
Qed.

(** X7: [main] never skips a subject: when it returns, the rows are
    one per subject, in the order of the list, and neither of the two
    excluded subjects is in the list. *)
Theorem main_processes_every_subject (subjects : list string)
        (rows : list subject_row) :
  main path_to_original_data path_exists read_log read_drop_log rows_to_csv
       subjects = Returns rows ->
  map row_subject rows = subjects
  /\ Forall (fun s => ~ In s ["S016"; "S222"]) subjects.
Proof.
  unfold main. intros H.
  destruct (collect_rows path_to_original_data path_exists read_log
                         read_drop_log subjects) as [all | e] eqn:Hrows;
    [| discriminate H].
  cbn [bind] in H. destruct (rows_to_csv _ all) as [[] | e]; [| discriminate H].
  cbn [bind] in H. apply Returns_inj in H. subst all.
  apply collect_rows_inv in Hrows.
  induction Hrows as [| s r subjects rows Hrow _ IH]; [split; constructor |].
  destruct IH as [IHm IHf]. destruct Hrow as (Hs & Hskip & _).
  split; [cbn [map]; rewrite Hs, IHm; reflexivity |].
  constructor; [| exact IHf].
  intros Hin. unfold str_in in Hskip.
  assert (Ht : existsb (String.eqb s) ["S016"; "S222"] = true).
  { apply existsb_exists. exists s. split; [exact Hin | apply String.eqb_refl]. }
  congruence.
Qed.

(** X8: what a first subject other than the empty name does to the
    batch.  When the global name [path_to_original_data] is not bound,
    as in the module as it stands, building the log path raises and the
    batch stops with that exception (a [NameError]) before any file is
    looked for.  When it is bound, a missing log file, or one of the two
    excluded subjects, stops the batch with a [ValueError]: the four
    [None]s do not fit the three names they are unpacked into. *)
Theorem missing_log_aborts (subject : string) (rest : list string) :
  subject <> "" ->
  (forall e,
     path_to_original_data = Raises e ->
     main path_to_original_data path_exists read_log read_drop_log rows_to_csv
          (subject :: rest) = Raises e)
  /\ (forall root,
        path_to_original_data = Returns root ->
        path_exists ("/" ++ root ++ "/Logfiles/" ++ subject
                     ++ "-Gratings_visual_snow.log") = false
        \/ In subject ["S016"; "S222"] ->
        main path_to_original_data path_exists read_log read_drop_log rows_to_csv
             (subject :: rest) = Raises "ValueError").
Proof.
  intros Hne.
  assert (Hempty : str_in subject [""] = false).
  { unfold str_in. cbn [existsb]. destruct (String.eqb_spec subject "");
      [contradiction | reflexivity]. }
  split.
  - intros e Hroot. unfold main. cbn [collect_rows].
    unfold process_subject_log. rewrite Hempty, Hroot. reflexivity.
  - intros root Hroot Hmiss. unfold main. cbn [collect_rows].
    assert (Hlog : process_subject_log path_to_original_data path_exists read_log
                                       subject
                   = Returns [PyNone; PyNone; PyNone; PyNone]).
    { unfold process_subject_log. rewrite Hempty, Hroot. cbn [bind].
      destruct Hmiss as [Hfalse | Hin].
      - rewrite Hfalse. reflexivity.
      - assert (Ht : str_in subject ["S016"; "S222"] = true).
        { apply existsb_exists. exists subject.
          split; [exact Hin | apply String.eqb_refl]. }
        rewrite Ht, orb_true_r. reflexivity. }
    rewrite Hlog. reflexivity.
Qed.

(** X9: in every written row the response classes and the time
    differences have the same length, the events and their times have
    the same length, and the group is 0 exactly when the second
    character of the subject name is '0', else 1. *)
Theorem written_rows_consistent (subjects : list string) (rows : list subject_row) :
  main path_to_original_data path_exists read_log read_drop_log rows_to_csv
       subjects = Returns rows ->
  Forall (fun row =>
            List.length (row_response_types row)
              = List.length (row_time_differences row)
            /\ (exists codes times,
                  row_events row = PyCodes codes /\ row_times row = PyTimes times
                  /\ List.length codes = List.length times)
            /\ (row_group row = 0 \/ row_group row = 1)
            /\ (row_group row = 0 <->
                String.get 1 (row_subject row) = Some "0"%char))
         rows.
Proof.
  unfold main. intros H.
  destruct (collect_rows path_to_original_data path_exists read_log
                         read_drop_log subjects) as [all | e] eqn:Hrows;
    [| discriminate H].
  cbn [bind] in H. destruct (rows_to_csv _ all) as [[] | e]; [| discriminate H].
  cbn [bind] in H. apply Returns_inj in H. subst all.
  apply collect_rows_inv in Hrows.
  induction Hrows as [| s r subjects rows Hrow _ IH]; constructor; [| exact IH].
  destruct Hrow as (Hs & _ & (lp & ld & _ & _ & Hrt & Htd & Hev) & _
                    & (second & Hget & Hgroup)).
  cbv zeta in Hev. destruct Hev as [Hcodes Htimes].
  split; [| split; [| split]].
  - rewrite Hrt, Htd. unfold classify_responses. rewrite classify_loop_trials.
    unfold outputs_of_trials. cbn [fst snd]. rewrite !length_map. reflexivity.
  - do 2 eexists. split; [exact Hcodes |]. split; [exact Htimes |].
    rewrite !length_map. reflexivity.
  - rewrite Hgroup. destruct (Ascii.eqb second "0"); [left | right]; reflexivity.
  - rewrite Hgroup, Hs, Hget. destruct (Ascii.eqb_spec second "0"%char) as [-> | Hn].
    + split; reflexivity.
    + split; [discriminate |]. intros Heq. injection Heq as Heq. contradiction.
Qed.

End RunFacts.

Section ValidIndices.
Import ReactionTimesRun.

Lemma valid_indices_from_spec (drop_log : list (list string)) : forall k i,
  In i (valid_indices_from k drop_log)
  <-> (k <= i)%nat /\ nth_error drop_log (i - k) = Some [].
Proof.
  induction drop_log as [| element rest IH]; intros k i.
  - cbn [valid_indices_from]. split; [intros [] |].
    intros [_ H]. destruct (i - k)%nat; discriminate H.
  - cbn [valid_indices_from].
    assert (Hrest : In i (valid_indices_from (S k) rest)
                    <-> (k < i)%nat /\ nth_error rest (i - S k) = Some []).
    { rewrite IH. reflexivity. }
    destruct element as [| reason reasons].
    + cbn [In]. rewrite Hrest. split.
      * intros [<- | [Hlt Hn]].
        -- split; [lia |]. rewrite Nat.sub_diag. reflexivity.
        -- split; [lia |]. replace (i - k)%nat with (S (i - S k)) by lia. exact Hn.
      * intros [Hle Hn]. destruct (Nat.eq_dec k i) as [-> | Hne]; [left; reflexivity |].
        right. split; [lia |].
        replace (i - k)%nat with (S (i - S k)) in Hn by lia. exact Hn.
    + rewrite Hrest. split.
      * intros [Hlt Hn]. split; [lia |].
        replace (i - k)%nat with (S (i - S k)) by lia. exact Hn.
      * intros [Hle Hn]. destruct (Nat.eq_dec k i) as [-> | Hne].
        -- rewrite Nat.sub_diag in Hn. discriminate Hn.
        -- split; [lia |].
           replace (i - k)%nat with (S (i - S k)) in Hn by lia. exact Hn.
Qed.

Lemma valid_indices_from_sorted (drop_log : list (list string)) : forall k,
  StronglySorted lt (valid_indices_from k drop_log).
Proof.
  induction drop_log as [| element rest IH]; intros k; cbn [valid_indices_from].
  - constructor.
  - destruct element; [| apply IH].
    constructor; [apply IH |].
    apply Forall_forall. intros i Hi. apply valid_indices_from_spec in Hi. lia.
Qed.

(** X10: the valid indices are strictly increasing and are exactly the
    positions whose drop-log entry is empty. *)
Theorem valid_indices_exact (drop_log : list (list string)) :
  StronglySorted lt (valid_indices_from 0 drop_log)
  /\ forall i, In i (valid_indices_from 0 drop_log)
               <-> nth_error drop_log i = Some [].
Proof.
  split; [apply valid_indices_from_sorted |].
  intros i. rewrite valid_indices_from_spec, Nat.sub_0_r.
  split; [intros [_ H]; exact H | intros H; split; [lia | exact H]].
Qed.

End ValidIndices.

Section RunExamples.

Import ReactionTimes.
Import ModelFitting.
Import ReactionTimesRun.
Local Open Scope string_scope.
Local Open Scope list_scope.
Local Open Scope Z_scope.

Lemma process_subject_log_tuple_witness :
  [PyCodes ["gr_2"]; PyTimes [100]; PyLog on_time_log]
    = [PyNone; PyNone; PyNone; PyNone]
  \/ exists codes times log_data,
       [PyCodes ["gr_2"]; PyTimes [100]; PyLog on_time_log]
         = [PyCodes codes; PyTimes times; PyLog log_data]
       /\ List.length codes = List.length times
       /\ Forall (fun c => In c GRATING_LABELS) codes
       /\ combine codes times
          = (if String.eqb "S001" "" then skipn 5 else fun rows => rows)
              (filter (fun row : entry => str_in (fst row) GRATING_LABELS) log_data).
Proof.
  apply (process_subject_log_tuple root_ok log_present read_log_ok "S001"
           [PyCodes ["gr_2"]; PyTimes [100]; PyLog on_time_log]).
  reflexivity.
Defined.

Lemma main_processes_every_subject_witness :
  exists rows,
    main root_ok log_present read_log_ok read_drop_log_ok rows_to_csv_ok
         ["S001"; "S102"] = Returns rows
    /\ map row_subject rows = ["S001"; "S102"]
    /\ Forall (fun s => ~ In s ["S016"; "S222"]) ["S001"; "S102"].
Proof.
  eexists. split; [reflexivity |].
  apply (main_processes_every_subject root_ok log_present read_log_ok
           read_drop_log_ok rows_to_csv_ok ["S001"; "S102"]).
  reflexivity.
Defined.

Lemma missing_log_aborts_witness :
  main root_unbound log_present read_log_ok read_drop_log_ok rows_to_csv_ok
       ("S001" :: ["S102"]) = Raises "NameError"
  /\ main root_ok log_absent read_log_ok read_drop_log_ok rows_to_csv_ok
          ("S001" :: ["S102"]) = Raises "ValueError".
Proof.
  split.
  - apply (proj1 (missing_log_aborts root_unbound log_present read_log_ok
                    read_drop_log_ok rows_to_csv_ok "S001" ["S102"]
                    ltac:(discriminate))).
    reflexivity.
  - apply (proj2 (missing_log_aborts root_ok log_absent read_log_ok
                    read_drop_log_ok rows_to_csv_ok "S001" ["S102"]
                    ltac:(discriminate)) "data").
    + reflexivity.
    + left. reflexivity.
Defined.

Lemma written_rows_consistent_witness :
  exists rows,
    main root_ok log_present read_log_ok read_drop_log_ok rows_to_csv_ok
         ["S001"; "S102"] = Returns rows
    /\ Forall (fun row =>
                 List.length (row_response_types row)
                   = List.length (row_time_differences row)
                 /\ (exists codes times,
                       row_events row = PyCodes codes /\ row_times row = PyTimes times
                       /\ List.length codes = List.length times)
                 /\ (row_group row = 0 \/ row_group row = 1)
                 /\ (row_group row = 0 <->
                     String.get 1 (row_subject row) = Some "0"%char))
              rows.
Proof.
  eexists. split; [reflexivity |].
  apply (written_rows_consistent root_ok log_present read_log_ok
           read_drop_log_ok rows_to_csv_ok ["S001"; "S102"]).
  reflexivity.
Defined.

End RunExamples.

(* ====================================================================== *)
(** * Properties of the behavioural variables *)
(* ====================================================================== *)

Section BehavioralFacts.

Import ModelFitting.
Import BehavioralData.
Local Open Scope string_scope.
Local Open Scope list_scope.
Local Open Scope Z_scope.

(** *** Timing variables *)

Lemma timing_loop_spec (events : list event) (rest : list event) :
  forall (i : nat) (previous : event),
    List.length (fst (timing_loop events i previous rest)) = List.length rest
    /\ List.length (snd (timing_loop events i previous rest)) = List.length rest
    /\ Forall (fun d => d = None \/ exists v, d = Some v /\ 0 <= v)
              (fst (timing_loop events i previous rest))
    /\ Forall (fun d => d = None) (snd (timing_loop events i previous rest)).
Proof.
  induction rest as [| current rest IH]; intros i previous; cbn [timing_loop].
  - repeat split; constructor.
  - cbv zeta. specialize (IH (S i) current).
    destruct (timing_loop events (S i) current rest) as [tp ts].
    cbn [fst snd] in *. destruct IH as (L1 & L2 & F1 & F2).
    cbn [List.length]. rewrite L1, L2. repeat split.
    + constructor; [| exact F1].
      destruct (Z.ltb_spec (sample current - sample previous) 0).
      * left. reflexivity.
      * right. eexists. split; [reflexivity | lia].
    + constructor; [reflexivity | exact F2].
Qed.

(** X11: both timing lists have one entry per event, but one entry
    even for no event at all; the first entry is NaN, every time to the
    previous stimulus is NaN or not negative, and every time to the
    previous stimulus of the same type is NaN. *)
Theorem timing_variables_shape (events : list event) :
  let time_to_previous := fst (calculate_timing_variables events) in
  let time_to_same := snd (calculate_timing_variables events) in
  List.length time_to_previous = Nat.max 1 (List.length events)
  /\ List.length time_to_same = Nat.max 1 (List.length events)
  /\ hd_error time_to_previous = Some None
  /\ Forall (fun d => d = None \/ exists v, d = Some v /\ 0 <= v) time_to_previous
  /\ Forall (fun d => d = None) time_to_same.
Proof.
  cbv zeta. unfold calculate_timing_variables.
  destruct events as [| first rest].
  - cbn. repeat split; repeat constructor.
  - pose proof (timing_loop_spec (first :: rest) rest 1%nat first) as (L1 & L2 & F1 & F2).
    destruct (timing_loop (first :: rest) 1 first rest) as [tp ts].
    cbn [fst snd] in *. cbn [List.length hd_error]. rewrite L1, L2.
    repeat split; try lia.
    + constructor; [left; reflexivity | exact F1].
    + constructor; [reflexivity | exact F2].
Qed.

(** Entry by entry: the difference to the event before, or NaN when
    that difference is negative. *)
Lemma timing_loop_entries (events : list event) (rest : list event) :
  forall (i : nat) (previous : event),
    fst (timing_loop events i previous rest) =
    map (fun p : event * event =>
           if sample (snd p) - sample (fst p) <? 0 then None
           else Some (sample (snd p) - sample (fst p)))
        (combine (previous :: rest) rest).
Proof.
  induction rest as [| current rest IH]; intros i previous; cbn [timing_loop].
  - reflexivity.
  - cbv zeta. specialize (IH (S i) current).
    destruct (timing_loop events (S i) current rest) as [tp ts].
    cbn [fst snd] in *. cbn [combine map fst snd]. rewrite IH.
    unfold correct_cross_run_timing. reflexivity.
Qed.

(** In time order no difference of consecutive events is negative, and
    the differences add up to the time from the first to the last. *)
Lemma consecutive_differences (rest : list event) :
  forall previous : event,
    StronglySorted Z.le (map sample (previous :: rest)) ->
    Forall (fun p : event * event => 0 <= sample (snd p) - sample (fst p))
           (combine (previous :: rest) rest)
    /\ fold_right Z.add 0
         (map (fun p : event * event => sample (snd p) - sample (fst p))
              (combine (previous :: rest) rest))
       = sample (last rest previous) - sample previous.
Proof.
  induction rest as [| current rest IH]; intros previous Hs.
  - split; [constructor | cbn; lia].
  - cbn [map] in Hs. inversion Hs as [| ? ? Htail Hhead]; subst.
    inversion Hhead as [| ? ? Hle _]; subst.
    destruct (IH current Htail) as [Hall Hsum].
    change (combine (previous :: current :: rest) (current :: rest))
      with ((previous, current) :: combine (current :: rest) rest).
    cbn [map fold_right fst snd]. split.
    + constructor; [cbn [fst snd]; lia | exact Hall].
    + rewrite Hsum.
      replace (last (current :: rest) previous) with (last rest current)
        by (clear; revert current; induction rest as [| x rest IHr]; intros current;
            [reflexivity | cbn [last]; destruct rest; [reflexivity | apply IHr]]).
      lia.
Qed.

(** X12: the time to the previous stimulus of every event but the
    first is the sample of the event minus the sample of the event
    before it, or NaN when that difference is negative.  For events in
    time order no entry but the first is NaN: the entries are exactly
    the consecutive sample differences, and they add up to the time
    between the first and the last event. *)
Theorem timing_variables_sorted (first : event) (rest : list event) :
  let difference (p : event * event) := sample (snd p) - sample (fst p) in
  fst (calculate_timing_variables (first :: rest)) =
    None :: map (fun p => if difference p <? 0 then None else Some (difference p))
                (combine (first :: rest) rest)
  /\ (StronglySorted Z.le (map sample (first :: rest)) ->
      fst (calculate_timing_variables (first :: rest)) =
        None :: map (fun p => Some (difference p)) (combine (first :: rest) rest)
      /\ fold_right Z.add 0 (map difference (combine (first :: rest) rest))
         = sample (last rest first) - sample first).
Proof.
  cbv zeta.
  assert (Hall : fst (calculate_timing_variables (first :: rest)) =
                 None :: map (fun p : event * event =>
                                if sample (snd p) - sample (fst p) <? 0 then None
                                else Some (sample (snd p) - sample (fst p)))
                             (combine (first :: rest) rest)).
  { unfold calculate_timing_variables.
    pose proof (timing_loop_entries (first :: rest) rest 1%nat first) as He.
    destruct (timing_loop (first :: rest) 1 first rest) as [tp ts].
    cbn [fst] in *. rewrite He. reflexivity. }
  split; [exact Hall |].
  intros Hs. destruct (consecutive_differences rest first Hs) as [Hpos Hsum].
  split; [| exact Hsum].
  rewrite Hall. f_equal. apply map_ext_in. intros p Hp.
  rewrite Forall_forall in Hpos. specialize (Hpos p Hp). cbv beta in Hpos.
  destruct (Z.ltb_spec (sample (snd p) - sample (fst p)) 0); [lia | reflexivity].
Qed.


(** *** Block information *)

Lemma unique_from_spec (values : list string) : forall seen x,
  In x (unique_from seen values) <-> In x values /\ ~ In x seen.
Proof.
  induction values as [| v rest IH]; intros seen x; cbn [unique_from].
  - cbn [In]. tauto.
  - destruct (existsb (String.eqb v) seen) eqn:Hv.
    + apply existsb_exists in Hv. destruct Hv as [y [Hy Heq]].
      apply String.eqb_eq in Heq. subst y.
      rewrite IH. cbn [In]. split.
      * intros [H1 H2]. tauto.
      * intros [[-> | H1] H2]; [contradiction | tauto].
    + assert (Hnot : ~ In v seen).
      { intros Hin. assert (existsb (String.eqb v) seen = true).
        { apply existsb_exists. exists v. split; [exact Hin | apply String.eqb_refl]. }
        congruence. }
      cbn [In]. rewrite IH. cbn [In]. split.
      * intros [<- | [H1 H2]]; [tauto |]. split; [tauto |]. tauto.
      * intros [[<- | H1] H2]; [tauto |].
        destruct (string_dec v x) as [-> | Hne]; [tauto |]. right. split; [exact H1 |].
        intros [Heq | Hin]; tauto.
Qed.

Lemma unique_from_NoDup (values : list string) : forall seen,
  NoDup (unique_from seen values).
Proof.
  induction values as [| v rest IH]; intros seen; cbn [unique_from].
  - constructor.
  - destruct (existsb (String.eqb v) seen); [apply IH |].
    constructor; [| apply IH].
    rewrite unique_from_spec. cbn [In]. tauto.
Qed.

Lemma categorize_map (s : string) (b1 b2 total : Z) (df : list df_row) :
  categorize s b1 b2 total df
  = map (fun row =>
           if String.eqb (subject row) s
           then mkDfRow (subject row) (orderN row)
                        (block_after b1 b2 total (orderN row) (block_num row))
           else row) df.
Proof.
  unfold categorize, assign_where. cbv zeta. rewrite !map_map.
  apply map_ext. intros [sub ord blk]. cbn [subject orderN block_num].
  unfold block_after.
  destruct (String.eqb sub s) eqn:E; destruct (ord <? b1) eqn:E1;
    destruct (b1 <=? ord) eqn:E2; destruct (ord <? b1 + b2) eqn:E3;
    destruct (b1 + b2 <=? ord) eqn:E4; destruct (ord <? b1 + b2 + total) eqn:E5;
    repeat (cbn [andb subject orderN block_num];
            rewrite ?E, ?E1, ?E2, ?E3, ?E4, ?E5);
    reflexivity.
Qed.

Lemma block_loop_spec (break_info : list break_row) (subjects : list string) :
  forall df df',
    NoDup subjects ->
    block_loop break_info subjects df = Returns df' ->
    df' = map (updated break_info subjects) df
    /\ Forall (fun s => break_of break_info s <> None) subjects.
Proof.
  induction subjects as [| s rest IH]; intros df df' Hnd H; cbn [block_loop] in H.
  - injection H as <-. split; [| constructor].
    unfold updated. cbn [existsb]. symmetry. apply map_id.
  - inversion Hnd as [| ? ? Hnotin Hnd']; subst.
    destruct (filter (fun info => String.eqb (subj info) s) break_info)
      as [| info more] eqn:Hinfo; [discriminate H |].
    cbv zeta in H. destruct (IH _ _ Hnd' H) as [Hdf Hall].
    assert (Hbreak : break_of break_info s = Some info)
      by (unfold break_of; rewrite Hinfo; reflexivity).
    split; [| constructor; [rewrite Hbreak; discriminate | exact Hall]].
    rewrite Hdf, categorize_map, map_map. apply map_ext.
    intros [sub ord blk]. unfold updated. cbn [subject orderN block_num existsb].
    destruct (String.eqb_spec sub s) as [-> | Hne].
    + cbn [subject orderN block_num orb].
      assert (Hrest : existsb (String.eqb s) rest = false).
      { destruct (existsb (String.eqb s) rest) eqn:He; [| reflexivity].
        apply existsb_exists in He. destruct He as [y [Hy Heq]].
        apply String.eqb_eq in Heq. subst y. contradiction. }
      rewrite Hrest, Hbreak. reflexivity.
    + cbn [orb]. reflexivity.
Qed.

Lemma block_loop_raises (break_info : list break_row) (subjects : list string) :
  forall df e,
    block_loop break_info subjects df = Raises e ->
    e = "IndexError" /\ Exists (fun s => break_of break_info s = None) subjects.
Proof.
  induction subjects as [| s rest IH]; intros df e H; cbn [block_loop] in H.
  - discriminate H.
  - destruct (filter (fun info => String.eqb (subj info) s) break_info)
      as [| info more] eqn:Hinfo.
    + injection H as <-. split; [reflexivity |]. apply Exists_cons_hd.
      unfold break_of. rewrite Hinfo. reflexivity.
    + cbv zeta in H. destruct (IH _ _ H) as [He Hex].
      split; [exact He | apply Exists_cons_tl; exact Hex].
Qed.

(** Every row gets the block of its order number, from the first break
    row of its subject, starting from block 0. *)
Lemma block_rows (df : list df_row) (break_info : list break_row)
        (df' : list df_row) :
  add_block_information df break_info = Returns df' ->
  Forall2 (fun row row' =>
             subject row' = subject row /\ orderN row' = orderN row
             /\ exists info,
                  break_of break_info (subject row) = Some info
                  /\ block_num row'
                     = block_after (epoch_before_break1 info)
                                   (epoch_before_break2 info)
                                   (epoch_after info) (orderN row) 0)
          df df'.
Proof.
  unfold add_block_information. cbv zeta. intros H.
  apply block_loop_spec in H; [| apply unique_from_NoDup].
  destruct H as [-> Hall]. rewrite map_map.
  assert (Hsub : forall row, In row df ->
             In (subject row)
                (unique (map subject
                           (map (fun r => mkDfRow (subject r) (orderN r) 0) df)))).
  { intros row Hin. unfold unique. rewrite unique_from_spec. split; [| intros []].
    rewrite map_map. cbn [subject]. apply in_map. exact Hin. }
  revert Hsub Hall.
  generalize (unique (map subject
                        (map (fun r => mkDfRow (subject r) (orderN r) 0) df))).
  intros subjects Hsub Hall.
  induction df as [| row df IH]; cbn [map]; constructor.
  - unfold updated. cbn [subject orderN block_num].
    assert (Hin : In (subject row) subjects) by (apply Hsub; left; reflexivity).
    assert (Hex : existsb (String.eqb (subject row)) subjects = true).
    { apply existsb_exists. exists (subject row).
      split; [exact Hin | apply String.eqb_refl]. }
    rewrite Hex.
    rewrite Forall_forall in Hall. specialize (Hall _ Hin).
    destruct (break_of break_info (subject row)) as [info |]; [| contradiction].
    cbn [subject orderN block_num]. repeat split. exists info. split; reflexivity.
  - apply IH. intros r Hr. apply Hsub. right. exact Hr.
Qed.

(** X14: [add_block_information] raises only an [IndexError], and only
    when some row's subject has no row in the break table; when every
    subject has one it returns. *)
Theorem add_block_information_raises (df : list df_row)
        (break_info : list break_row) :
  (forall e, add_block_information df break_info = Raises e ->
             e = "IndexError"
             /\ Exists (fun row => break_of break_info (subject row) = None) df)
  /\ (Forall (fun row => break_of break_info (subject row) <> None) df ->
      exists df', add_block_information df break_info = Returns df').
Proof.
  split.
  - intros e H. unfold add_block_information in H. cbv zeta in H.
    apply block_loop_raises in H. destruct H as [He Hex]. split; [exact He |].
    apply Exists_exists in Hex. destruct Hex as [s [Hs Hnone]].
    unfold unique in Hs. rewrite unique_from_spec in Hs. destruct Hs as [Hs _].
    rewrite map_map in Hs. cbn [subject] in Hs. apply in_map_iff in Hs.
    destruct Hs as [row [<- Hrow]].
    apply Exists_exists. exists row. split; assumption.
  - intros Hall.
    destruct (add_block_information df break_info) as [df' | e] eqn:H;
      [exists df'; reflexivity |].
    unfold add_block_information in H. cbv zeta in H.
    apply block_loop_raises in H. destruct H as [_ Hex].
    apply Exists_exists in Hex. destruct Hex as [s [Hs Hnone]].
    unfold unique in Hs. rewrite unique_from_spec in Hs. destruct Hs as [Hs _].
    rewrite map_map in Hs. cbn [subject] in Hs. apply in_map_iff in Hs.
    destruct Hs as [row [<- Hrow]].
    rewrite Forall_forall in Hall. specialize (Hall row Hrow). contradiction.
Qed.

(** X15: for break lengths that are not negative the blocks cut the
    order numbers into consecutive ranges: block 1 below the first
    break, block 2 up to the second, block 3 up to the total, and
    block 0 (unassigned) from there on. *)
Theorem block_numbers_partition (df : list df_row) (break_info : list break_row)
        (df' : list df_row) :
  add_block_information df break_info = Returns df' ->
  Forall2 (fun row row' =>
             forall info,
               break_of break_info (subject row) = Some info ->
               0 <= epoch_before_break2 info -> 0 <= epoch_after info ->
               let b1 := epoch_before_break1 info in
               let b2 := b1 + epoch_before_break2 info in
               let b3 := b2 + epoch_after info in
               (block_num row' = 1 <-> orderN row < b1)
               /\ (block_num row' = 2 <-> b1 <= orderN row < b2)
               /\ (block_num row' = 3 <-> b2 <= orderN row < b3)
               /\ (block_num row' = 0 <-> b3 <= orderN row))
          df df'.
Proof.
  intros H. apply block_rows in H.
  induction H as [| row row' df df' Hrow _ IH]; constructor; [| exact IH].
  destruct Hrow as (_ & _ & info & Hinfo & Hblock).
  intros info' Hinfo' Hb2 Htotal. rewrite Hinfo in Hinfo'. injection Hinfo' as <-.
  cbv zeta. rewrite Hblock. unfold block_after.
  destruct (Z.ltb_spec (orderN row) (epoch_before_break1 info));
    destruct (Z.leb_spec (epoch_before_break1 info) (orderN row));
    destruct (Z.ltb_spec (orderN row)
                         (epoch_before_break1 info + epoch_before_break2 info));
    destruct (Z.leb_spec (epoch_before_break1 info + epoch_before_break2 info)
                         (orderN row));
    destruct (Z.ltb_spec (orderN row)
                         (epoch_before_break1 info + epoch_before_break2 info
                          + epoch_after info));
    cbn [andb]; repeat split; intros; try lia; try discriminate.
Qed.


(** X13: [add_block_information] keeps the rows, their subjects and
    their order numbers, overwrites whatever block number a row had,
    and gives every row a block number from 0 to 3. *)
Theorem add_block_information_rows (df : list df_row) (break_info : list break_row)
        (df' : list df_row) :
  add_block_information df break_info = Returns df' ->
  List.length df' = List.length df
  /\ map subject df' = map subject df
  /\ map orderN df' = map orderN df
  /\ Forall (fun row => In (block_num row) [0; 1; 2; 3]) df'
  /\ forall old,
       add_block_information
         (map (fun row => mkDfRow (subject row) (orderN row) old) df) break_info
       = Returns df'.
Proof.
  intros H. pose proof (block_rows df break_info df' H) as Hrows.
  split; [| split; [| split; [| split]]].
  - symmetry. eapply Forall2_length. exact Hrows.
  - clear H. induction Hrows as [| row row' l l' (Hs & _) _ IH]; cbn [map];
      [reflexivity |].
    rewrite Hs, IH. reflexivity.
  - clear H. induction Hrows as [| row row' l l' (_ & Ho & _) _ IH]; cbn [map];
      [reflexivity |].
    rewrite Ho, IH. reflexivity.
  - clear H. induction Hrows as [| row row' l l' (_ & _ & info & _ & Hb) _ IH];
      constructor; [| exact IH].
    rewrite Hb. unfold block_after.
    destruct (orderN row <? epoch_before_break1 info);
      destruct ((epoch_before_break1 info <=? orderN row)
                && (orderN row <? epoch_before_break1 info
                                  + epoch_before_break2 info));
      destruct ((epoch_before_break1 info + epoch_before_break2 info <=? orderN row)
                && (orderN row <? epoch_before_break1 info
                                  + epoch_before_break2 info + epoch_after info));
      cbn [In]; tauto.
  - intros old. rewrite <- H. unfold add_block_information. cbv zeta.
    rewrite !map_map. reflexivity.
Qed.

Lemma add_block_information_rows_witness :
  exists df',
    add_block_information sample_df sample_breaks = Returns df'
    /\ List.length df' = List.length sample_df
    /\ map subject df' = map subject sample_df
    /\ map orderN df' = map orderN sample_df
    /\ Forall (fun row => In (block_num row) [0; 1; 2; 3]) df'
    /\ forall old,
         add_block_information
           (map (fun row => mkDfRow (subject row) (orderN row) old) sample_df)
           sample_breaks
         = Returns df'.
Proof.
  eexists. split; [reflexivity |].
  apply (add_block_information_rows sample_df sample_breaks). reflexivity.
Defined.

Lemma block_numbers_partition_witness :
  exists df',
    add_block_information sample_df sample_breaks = Returns df'
    /\ Forall2 (fun row row' =>
                  forall info,
                    break_of sample_breaks (subject row) = Some info ->
                    0 <= epoch_before_break2 info -> 0 <= epoch_after info ->
                    let b1 := epoch_before_break1 info in
                    let b2 := b1 + epoch_before_break2 info in
                    let b3 := b2 + epoch_after info in
                    (block_num row' = 1 <-> orderN row < b1)
                    /\ (block_num row' = 2 <-> b1 <= orderN row < b2)
                    /\ (block_num row' = 3 <-> b2 <= orderN row < b3)
                    /\ (block_num row' = 0 <-> b3 <= orderN row))
               sample_df df'.
Proof.
  eexists. split; [reflexivity |].
  apply (block_numbers_partition sample_df sample_breaks). reflexivity.
Defined.

Lemma timing_variables_sorted_witness :
  fst (calculate_timing_variables sample_events) = [None; Some 150; Some 150]
  /\ 150 + (150 + 0) = 400 - 100.
Proof.
  apply (proj2 (timing_variables_sorted (100, 0, 1) [(250, 0, 2); (400, 0, 1)])).
  repeat constructor; cbn; lia.
Defined.

End BehavioralFacts.

(* ====================================================================== *)
(** * Further properties of the model function *)
(* ====================================================================== *)

Section CurveFacts.

Import ModelFitting.
Local Open Scope R_scope.




End CurveFacts.

(* ====================================================================== *)
(** * Properties of the residual arrays *)
(* ====================================================================== *)

Section ArrayExtras.

Import ModelFitting.
Local Open Scope string_scope.
Local Open Scope list_scope.
Local Open Scope R_scope.

(** X23: the residual function returns an array as long as the data
    for equally long inputs, stretches a single response over all
    contrast levels without complaint, and raises (a [ValueError]) only
    for lengths that differ with neither of them 1. *)
Theorem residual_shapes (params : lmfit_Parameters) (contrast data : list R) :
  (List.length contrast = List.length data ->
     exists r, residual params contrast data = Returns r
               /\ List.length r = List.length data)
  /\ (List.length data = 1%nat ->
      exists r, residual params contrast data = Returns r
                /\ List.length r = List.length contrast)
  /\ (forall e, residual params contrast data = Raises e ->
        e = "ValueError"
        /\ List.length contrast <> List.length data
        /\ List.length data <> 1%nat /\ List.length contrast <> 1%nat).
Proof.
  unfold residual, np_sub, naka_rushton_array. rewrite !length_map.
  split; [| split].
  - intros Hlen. rewrite <- Hlen, Nat.eqb_refl. eexists. split; [reflexivity |].
    rewrite length_map, length_combine, !length_map, Hlen. apply Nat.min_id.
  - intros Hone. destruct data as [| d [| d' data]]; try discriminate Hone.
    cbn [List.length map].
    destruct (Nat.eqb_spec 1 (List.length contrast)) as [Heq | Hne].
    + eexists. split; [reflexivity |].
      rewrite length_map, length_combine, length_map. cbn [List.length].
      rewrite <- Heq. reflexivity.
    + eexists. split; [reflexivity |]. rewrite !length_map. reflexivity.
  - intros e H.
    destruct (Nat.eqb_spec (List.length data) (List.length contrast)) as [Heq | Hne];
      [discriminate H |].
    destruct data as [| d [| d' data]]; destruct contrast as [| c [| c' contrast]];
      cbn [map List.length] in *; try discriminate H; try congruence;
      injection H as <-; repeat split; try discriminate; congruence.
Qed.


End ArrayExtras.

(* ====================================================================== *)
(** * Properties of the fitting batch run *)
(* ====================================================================== *)

Section BatchExtras.

Import ModelFitting.
Local Open Scope string_scope.
Local Open Scope list_scope.
Local Open Scope R_scope.

Variable minimize :
  objective -> lmfit_Parameters -> list R -> list R -> outcome MinimizerResult.
Variable read_csv : string -> outcome (list csv_row).
Variable render_report :
  string -> string -> string ->
  list R -> list R -> list float -> list float -> list R ->
  lmfit_Parameters -> float -> outcome unit.
Variable to_csv : string -> results_table -> outcome unit.

Lemma filter_first {A : Type} (p : A -> bool) (l : list A) (x : A) (more : list A) :
  filter p l = x :: more ->
  exists before after,
    l = before ++ x :: after /\ p x = true /\ Forall (fun y => p y = false) before.
Proof.
  induction l as [| y l IH]; cbn [filter]; [discriminate |].
  destruct (p y) eqn:Hy.
  - intros H. injection H as -> _. exists [], l. repeat split; [exact Hy | constructor].
  - intros H. destruct (IH H) as (before & after & -> & Hx & Hall).
    exists (y :: before), after. repeat split; [exact Hx |].
    constructor; assumption.
Qed.

Lemma filter_none {A : Type} (p : A -> bool) (l : list A) :
  filter p l = [] -> Forall (fun y => p y = false) l.
Proof.
  induction l as [| y l IH]; cbn [filter]; [constructor |].
  destruct (p y) eqn:Hy; [discriminate |]. intros H. constructor; auto.
Qed.

(** X24: [load_subject_data] takes the first row of the table with
    the subject's name, returns its five responses and its baseline
    scaled by 1e12, and raises an [IndexError] when no row has that name
    (or whatever reading the table raised). *)
Theorem load_subject_data_first_row (csv_path group subject data_file : string) :
  (forall data base,
     load_subject_data read_csv csv_path group subject data_file
       = Returns (data, base) ->
     exists before row after,
       read_csv (csv_path ++ data_file ++ "_" ++ group ++ ".csv")
         = Returns (before ++ row :: after)
       /\ subj row = subject
       /\ Forall (fun r => subj r <> subject) before
       /\ data = map (fun v => v * 10 ^ 12)
                     [C5 row; C10 row; C20 row; C40 row; C80 row]
       /\ base = Base row * 10 ^ 12)
  /\ (forall e,
        load_subject_data read_csv csv_path group subject data_file = Raises e ->
        read_csv (csv_path ++ data_file ++ "_" ++ group ++ ".csv") = Raises e
        \/ (e = "IndexError"
            /\ exists df,
                 read_csv (csv_path ++ data_file ++ "_" ++ group ++ ".csv")
                   = Returns df
                 /\ Forall (fun r => subj r <> subject) df)).
Proof.
  unfold load_subject_data. split.
  - intros data base H.
    destruct (read_csv _) as [df | e]; [| discriminate H]. cbn [bind] in H.
    destruct (filter _ df) as [| row more] eqn:Hf; [discriminate H |].
    cbv zeta in H. injection H as <- <-.
    destruct (filter_first _ _ _ _ Hf) as (before & after & -> & Hrow & Hall).
    exists before, row, after. split; [reflexivity |].
    split; [apply String.eqb_eq; exact Hrow |]. split; [| split; reflexivity].
    eapply Forall_impl; [| exact Hall]. cbv beta. intros r Hr Heq.
    apply String.eqb_eq in Heq. congruence.
  - intros e H.
    destruct (read_csv _) as [df | e0]; cbn [bind] in H.
    + right. destruct (filter _ df) as [| row more] eqn:Hf; [| discriminate H].
      injection H as <-. split; [reflexivity |]. exists df. split; [reflexivity |].
      apply filter_none in Hf. eapply Forall_impl; [| exact Hf]. cbv beta.
      intros r Hr Heq. apply String.eqb_eq in Heq. congruence.
    + left. injection H as <-. reflexivity.
Qed.

Lemma np_max_spec (x : R) (xs : list R) :
  In (fold_left Rmax xs x) (x :: xs)
  /\ Forall (fun d => d <= fold_left Rmax xs x) (x :: xs).
Proof.
  revert x. induction xs as [| y xs IH]; intros x; cbn [fold_left].
  - split; [left; reflexivity | constructor; [lra | constructor]].
  - destruct (IH (Rmax x y)) as [Hin Hall].
    inversion Hall as [| ? ? Hhead Htail]; subst. split.
    + destruct Hin as [Heq | Hin]; [| right; right; exact Hin].
      rewrite <- Heq. unfold Rmax. destruct (Rle_dec x y);
        [right; left | left]; reflexivity.
    + pose proof (Rmax_l x y). pose proof (Rmax_r x y).
      constructor; [lra |]. constructor; [lra | exact Htail].
Qed.

(** X25: [initialize_parameters] raises (a [ValueError]) exactly for
    an empty response array.  Otherwise all four parameters vary, carry
    the configured bounds and start inside them: the semisaturation at
    0.3, the saturation exponent at 1.0, the maximum amplitude at the
    largest response and the baseline at the value passed in, these two
    raised to 0 when they are negative. *)
Theorem initialize_parameters_start (data : list R) (base : R) :
  (forall e, initialize_parameters data base = Raises e <->
             data = [] /\ e = "ValueError")
  /\ (forall params, initialize_parameters data base = Returns params ->
        (exists data_max,
           In data_max data
           /\ Forall (fun d => d <= data_max) data
           /\ value (MAXampl params) = Rmax data_max 0)
        /\ value (baseline params) = Rmax base 0
        /\ value (semisaturation params) = 3 / 10
        /\ value (Saturation params) = 1
        /\ configured_bounds params /\ within_bounds params
        /\ vary (semisaturation params) = true /\ vary (MAXampl params) = true
        /\ vary (Saturation params) = true /\ vary (baseline params) = true).
Proof.
  destruct data as [| x xs].
  - split.
    + intros e. unfold initialize_parameters. cbn [np_max bind].
      split; [intros H; injection H as <-; split; reflexivity |].
      intros [_ ->]. reflexivity.
    + intros params H. discriminate H.
  - split.
    + intros e. rewrite initialize_parameters_cons.
      split; [discriminate | intros [H _]; discriminate H].
    + intros params H.
      destruct (initialize_parameters_bounds _ _ _ H) as (Hconf & Hin & Hv1 & Hv2).
      rewrite initialize_parameters_cons in H. injection H as <-.
      cbn [value vary MAXampl baseline semisaturation Saturation] in *.
      destruct (np_max_spec x xs) as [Hmax Hall].
      split; [exists (fold_left Rmax xs x); repeat split; assumption |].
      split; [reflexivity |]. split; [reflexivity |]. split; [reflexivity |].
      split; [exact Hconf |]. split; [exact Hin |]. repeat split.
Qed.

Lemma initialize_parameters_start_witness :
  exists params data_max,
    initialize_parameters [-1; -3; -2] (-5) = Returns params
    /\ In data_max [-1; -3; -2]
    /\ value (MAXampl params) = Rmax data_max 0
    /\ value (baseline params) = Rmax (-5) 0.
Proof.
  eexists.
  destruct (proj2 (initialize_parameters_start [-1; -3; -2] (-5)) _
              (initialize_parameters_cons (-1) [-3; -2] (-5)))
    as ((data_max & Hin & _ & Hmax) & Hbase & _).
  exists data_max. split; [apply initialize_parameters_cons |].
  split; [exact Hin |]. split; [exact Hmax | exact Hbase].
Defined.

Lemma process_subject_inv (group subject data_file : string)
      (subject_id : string) (fit_results : list float) :
  process_subject minimize read_csv render_report group subject data_file
    = Some (subject_id, fit_results) ->
  subject_id = subject
  /\ exists semisat Rmax0 s b rsq,
       fit_results = [fin semisat; fin Rmax0; fin s; fin b; rsq].
Proof.
  unfold process_subject. cbv zeta.
  destruct (load_subject_data read_csv BASE_DIR group subject data_file)
    as [loaded | e]; cbn [bind]; [| discriminate].
  destruct (fit minimize render_report _ subject data_file CONTRASTS
                (fst loaded) (snd loaded)) as [results | e] eqn:Hfit;
    [| discriminate].
  intros H. injection H as <- <-. split; [reflexivity |].
  destruct (fit_returns_inv _ _ _ _ _ _ _ _ _ Hfit) as (params & result & _ & _ & ->).
  do 5 eexists. reflexivity.
Qed.

Lemma flat_map_nil {A B : Type} (f : A -> list B) (l : list A) :
  (forall x, In x l -> f x = []) -> flat_map f l = [].
Proof.
  induction l as [| x l IH]; intros H; cbn [flat_map]; [reflexivity |].
  rewrite (H x) by (left; reflexivity). apply IH. intros y Hy. apply H. right. exact Hy.
Qed.

(** X27: a subject whose fits all fail leaves no trace and does not
    stop the batch: the run is the same as without that subject. *)
Theorem failed_subject_dropped (subject : string)
        (subjects_vs subjects_contr input_files : list string) :
  (forall data_file, In data_file input_files ->
     process_subject minimize read_csv render_report "VS" subject data_file = None) ->
  main minimize read_csv render_report to_csv
       (subject :: subjects_vs) subjects_contr input_files
  = main minimize read_csv render_report to_csv
         subjects_vs subjects_contr input_files.
Proof.
  intros Hfail.
  assert (Hrun : run_all minimize read_csv render_report
                         (subject :: subjects_vs) subjects_contr input_files
                 = run_all minimize read_csv render_report
                           subjects_vs subjects_contr input_files).
  { unfold run_all. cbn [flat_map fst snd].
    rewrite (flat_map_nil _ input_files); [reflexivity |].
    intros data_file Hin. rewrite (Hfail data_file Hin). reflexivity. }
  unfold main. rewrite Hrun. reflexivity.
Qed.

Lemma flat_map_length_le {A B : Type} (f : A -> list B) (n : nat) (l : list A) :
  (forall x, (List.length (f x) <= n)%nat) ->
  (List.length (flat_map f l) <= List.length l * n)%nat.
Proof.
  intros H. induction l as [| x l IH]; cbn [flat_map List.length]; [lia |].
  rewrite length_app. specialize (H x). lia.
Qed.

Lemma run_all_rows (subjects_vs subjects_contr input_files : list string) :
  Forall (fun row : string * list float =>
            In (fst row) (subjects_vs ++ subjects_contr)
            /\ List.length (snd row) = 5%nat)
         (run_all minimize read_csv render_report
                  subjects_vs subjects_contr input_files)
  /\ (List.length (run_all minimize read_csv render_report
                           subjects_vs subjects_contr input_files)
      <= (List.length subjects_vs + List.length subjects_contr)
         * List.length input_files)%nat.
Proof.
  unfold run_all. cbn [flat_map fst snd]. rewrite app_nil_r. split.
  - apply Forall_forall. intros [id results] Hin. cbn [fst snd].
    assert (Hone : forall group subjects,
               In (id, results)
                  (flat_map (fun subject =>
                     flat_map (fun data_file =>
                       match process_subject minimize read_csv render_report
                                             group subject data_file with
                       | Some result => [result]
                       | None => []
                       end) input_files) subjects) ->
               In id subjects /\ List.length results = 5%nat).
    { intros group subjects H. apply in_flat_map in H.
      destruct H as [subject [Hs H]]. apply in_flat_map in H.
      destruct H as [data_file [_ H]].
      destruct (process_subject minimize read_csv render_report group subject
                                data_file) as [[id' results'] |] eqn:Hp;
        [| contradiction].
      destruct H as [H | []]. injection H as -> ->.
      destruct (process_subject_inv _ _ _ _ _ Hp)
        as (-> & a & b & c & d & rsq & ->).
      split; [exact Hs | reflexivity]. }
    apply in_app_or in Hin. destruct Hin as [Hin | Hin];
      apply Hone in Hin; destruct Hin as [Hid Hlen];
      (split; [apply in_or_app; auto | exact Hlen]).
  - rewrite length_app.
    assert (Hone : forall group subjects,
               (List.length
                  (flat_map (fun subject =>
                     flat_map (fun data_file =>
                       match process_subject minimize read_csv render_report
                                             group subject data_file with
                       | Some result => [result]
                       | None => []
                       end) input_files) subjects)
                <= List.length subjects * List.length input_files)%nat).
    { intros group subjects. apply flat_map_length_le. intros subject.
      rewrite <- (Nat.mul_1_r (List.length input_files)).
      apply flat_map_length_le. intros data_file.
      destruct (process_subject _ _ _ _ _ _); cbn [List.length]; lia. }
    pose proof (Hone "VS" subjects_vs). pose proof (Hone "CONTR" subjects_contr).
    lia.
Qed.

(** X28: the batch run writes nothing or one table, to the fixed
    path, with the six fixed columns, at least one row, at most one row
    per subject and input file, every row a listed subject's name with
    five numbers. *)
Theorem main_table (subjects_vs subjects_contr input_files : list string)
        (files : list (string * results_table)) :
  main minimize read_csv render_report to_csv
       subjects_vs subjects_contr input_files = Returns files ->
  files = []
  \/ exists table,
       files = [(output_file, table)]
       /\ columns table = results_columns
       /\ rows table <> []
       /\ Forall (fun row : string * list float =>
                    In (fst row) (subjects_vs ++ subjects_contr)
                    /\ List.length (snd row) = 5%nat) (rows table)
       /\ (List.length (rows table)
           <= (List.length subjects_vs + List.length subjects_contr)
              * List.length input_files)%nat.
Proof.
  unfold main. cbv zeta.
  destruct (run_all_rows subjects_vs subjects_contr input_files) as [Hrows Hlen].
  destruct (run_all minimize read_csv render_report subjects_vs subjects_contr
                    input_files) as [| row more] eqn:Hrun.
  - intros H. injection H as <-. left. reflexivity.
  - destruct (to_csv _ _) as [[] | e]; cbn [bind]; [| discriminate].
    intros H. injection H as <-. right. eexists. split; [reflexivity |].
    cbn [columns rows]. repeat split; [discriminate | exact Hrows | exact Hlen].
Qed.

End BatchExtras.

Section BatchExamples.

Import ModelFitting.
Local Open Scope string_scope.
Local Open Scope list_scope.
Local Open Scope R_scope.

Lemma process_subject_start_returns :
  exists fit_results,
    process_subject minimize_start one_subject_csv report_ok
                    "VS" "Subject_1" "Appelbaum_Nmax_1"
    = Some ("Subject_1", fit_results).
Proof.
  unfold process_subject, load_subject_data, one_subject_csv. cbv zeta.
  cbn [bind filter subj String.eqb Ascii.eqb Bool.eqb andb fst snd].
  match goal with
  | |- context [fit _ _ ?p ?s ?f ?c (?d :: ?data) ?b] =>
      destruct (fit_start_returns p s f c d data b) as [fit_results Hfit]
  end.
  - reflexivity.
  - unfold CONTRASTS. repeat constructor; lra.
  - rewrite Hfit. exists fit_results. reflexivity.
Qed.

Lemma failed_subject_dropped_witness :
  main minimize_start one_subject_csv report_ok to_csv_ok
       ("Nobody" :: SUBJECTS_VS) SUBJECTS_CONTR INPUT_FILES
  = main minimize_start one_subject_csv report_ok to_csv_ok
         SUBJECTS_VS SUBJECTS_CONTR INPUT_FILES.
Proof.
  apply (failed_subject_dropped minimize_start one_subject_csv report_ok to_csv_ok
           "Nobody" SUBJECTS_VS SUBJECTS_CONTR INPUT_FILES).
  intros data_file _. reflexivity.
Defined.

Lemma main_table_witness :
  exists files,
    main minimize_start one_subject_csv report_ok to_csv_ok
         SUBJECTS_VS SUBJECTS_CONTR INPUT_FILES = Returns files
    /\ (files = []
        \/ exists table,
             files = [(output_file, table)]
             /\ columns table = results_columns
             /\ rows table <> []
             /\ Forall (fun row : string * list float =>
                          In (fst row) (SUBJECTS_VS ++ SUBJECTS_CONTR)
                          /\ List.length (snd row) = 5%nat) (rows table)
             /\ (List.length (rows table)
                 <= (List.length SUBJECTS_VS + List.length SUBJECTS_CONTR)
                    * List.length INPUT_FILES)%nat).
Proof.
  destruct process_subject_start_returns as [fit_results H].
  assert (Hmain : main minimize_start one_subject_csv report_ok to_csv_ok
                       SUBJECTS_VS SUBJECTS_CONTR INPUT_FILES
                  = Returns [(output_file,
                              mkTable results_columns [("Subject_1", fit_results)])]).
  { unfold main, run_all, SUBJECTS_VS, SUBJECTS_CONTR, INPUT_FILES.
    cbn [flat_map fst snd app]. rewrite H. reflexivity. }
  eexists. split; [exact Hmain |].
  apply (main_table minimize_start one_subject_csv report_ok to_csv_ok
           SUBJECTS_VS SUBJECTS_CONTR INPUT_FILES _ Hmain).
Defined.

End BatchExamples.
